(** * WhaleMind: the wallet behaviour classification engine

    A shallow embedding of [behavior.py] (conversion of wei amounts and the
    base aggregates) and of [intelligence.py] (metrics, weighted signals,
    verdict selection and confidence), followed by the properties of the
    engine.

    Python values are modelled as follows.
    - [int] is [Z].
    - [float] is a finite IEEE binary64 number, kept as the rational it
      denotes ([Qc], so that equal numbers are equal terms).  Every float
      operation is the exact operation followed by rounding to the nearest
      binary64 number, ties to even ([fl]).  Infinities, NaN and the sign of
      zero are not values here: where the code would go on with an
      infinity or a NaN, the embedding answers [Unsupported].
    - [str] is [string], read as ASCII text; the conversions of a string
      to a number answer [Unsupported] on a string with a character
      outside ASCII.  A dict of a fixed shape is a record; a missing key
      or [None] is [None].
    - a raised exception is the [Raise] branch of [result]. *)

From Stdlib Require Import ZArith QArith Qcanon Qround Qabs Qpower Lqa Lia.
From Stdlib Require Import Ascii.
From stdpp Require Import gmap strings list sorting.

Local Open Scope Z_scope.
Set Warnings "-clear-no-such-hyp".

(** ** Floats *)

Module PyFloat.

Definition float : Type := Qc.

(** Nearest integer, ties to the even one. *)
Definition rne (q : Q) : Z :=
  let f := Qfloor q in
  match (q - inject_Z f ?= 1 # 2)%Q with
  | Lt => f
  | Gt => f + 1
  | Eq => if Z.even f then f else f + 1
  end.

Definition pow2 (e : Z) : Q :=
  if 0 <=? e then inject_Z (2 ^ e) else (/ inject_Z (2 ^ (- e)))%Q.

Definition pow10 (e : Z) : Q :=
  if 0 <=? e then inject_Z (10 ^ e) else (/ inject_Z (10 ^ (- e)))%Q.

(** [floor (log2 |q|)] for [q <> 0]. *)
Definition ilog2 (q : Q) : Z :=
  let e := Z.log2 (Z.abs (Qnum q)) - Z.log2 (Zpos (Qden q)) in
  if Qle_bool (pow2 e) (Qabs q) then e else e - 1.

(** Rounding of a rational to binary64: 53 significant bits, smallest
    exponent -1074.  The exponent has no upper limit here: a result of
    magnitude 2^1024 or more stands for an overflow, see [finite]. *)
Definition fl (q : Q) : float :=
  if Qeq_bool q 0 then Q2Qc 0
  else
    let e := Z.max (ilog2 q - 52) (-1074) in
    Q2Qc (inject_Z (rne (q / pow2 e)) * pow2 e).

(** The float of a small int, such as the length of a list. *)
Definition of_int (n : Z) : float := fl (inject_Z n).

Definition fadd (x y : float) : float := fl (x + y).
Definition fsub (x y : float) : float := fl (x - y).
Definition fmul (x y : float) : float := fl (x * y).
Definition fdiv (x y : float) : float := fl (x / y).

(** The quotient of two ints, correctly rounded.  [a / b] is this number
    unless it is too large for a float, see [int_truediv]. *)
Definition int_quotient (a b : Z) : float := fl (inject_Z a / inject_Z b).

Definition fneg (x : float) : float := (- x)%Qc.

Definition fleb (x y : float) : bool := Qle_bool x y.
Definition fltb (x y : float) : bool := negb (Qle_bool y x).
Definition fnonzero (x : float) : bool := negb (Qeq_bool x 0).

Definition fmin (x y : float) : float := if fltb y x then y else x.
Definition fmax (x y : float) : float := if fltb x y then y else x.

(** [round(x, ndigits)]: the decimal with [ndigits] fractional digits
    nearest to the exact value of [x] (ties to even), converted back to a
    float. *)
Definition round (x : float) (ndigits : Z) : float :=
  fl (inject_Z (rne (x * pow10 ndigits)) / pow10 ndigits).

(** Whether a rounded result is beyond the largest binary64 number. *)
Definition overflows (x : float) : bool := Qle_bool (pow2 1024) (Qabs x).

End PyFloat.

Import PyFloat.
Arguments fl q%_Q.

(** ** Outcomes *)

Inductive exn : Set :=
| TypeError
| ValueError
| OverflowError
| AttributeError
| InvalidOperation
| Overflow.

(** The outcome of a call: a value, an exception, or [Unsupported] when
    the call leaves the fragment of Python that is modelled (a float that
    is an infinity or a NaN, a number spelled with characters outside
    ASCII).  Nothing is stated about the code in the last case. *)
Inductive result (A : Type) : Type :=
| Ok (a : A)
| Raise (e : exn)
| Unsupported.
Arguments Ok {A} a.
Arguments Raise {A} e.
Arguments Unsupported {A}.

#[global] Instance exn_eq_dec : EqDecision exn.
Proof. solve_decision. Defined.

#[global] Instance result_ret : MRet result := @Ok.

#[global] Instance result_bind : MBind result := fun A B k r =>
  match r with
  | Ok a => k a
  | Raise e => Raise e
  | Unsupported => Unsupported
  end.

(** A [for] loop whose body may raise: the first exception ends the loop. *)
Fixpoint for_each {A S} (body : S -> A -> result S) (l : list A) (s : S)
  : result S :=
  match l with
  | [] => Ok s
  | a :: l' => s' ← body s a; for_each body l' s'
  end.

(** [try: body  except classes: handler], where [classes] is the tuple
    expression of the [except] clause: it is evaluated when [body] has
    raised, and an exception raised by that evaluation replaces the one
    being handled. *)
Definition try_except {A} (body : result A) (classes : result (list exn))
    (handler : result A) : result A :=
  match body with
  | Ok a => Ok a
  | Raise e =>
      cs ← classes;
      if bool_decide (e ∈ cs) then handler else Raise e
  | Unsupported => Unsupported
  end.

(** The result of a float operation on finite floats: an overflow gives
    an infinity, which is not followed. *)
Definition finite (x : float) : result float :=
  if overflows x then Unsupported else Ok x.

(** [a / b] on two ints, [b] nonzero: the quotient correctly rounded, or
    [OverflowError] when it is too large for a float. *)
Definition int_truediv (a b : Z) : result float :=
  if overflows (int_quotient a b) then Raise OverflowError
  else Ok (int_quotient a b).

(** ** Strings *)

Definition is_upper (c : ascii) : bool :=
  let n := N_of_ascii c in (65 <=? n)%N && (n <=? 90)%N.

(** [str.lower()] on ASCII text (addresses are hexadecimal). *)
Fixpoint lower (s : string) : string :=
  match s with
  | EmptyString => EmptyString
  | String c s' =>
      String (if is_upper c then ascii_of_N (N_of_ascii c + 32) else c)
             (lower s')
  end.

(** [x or d] for an optional string: [None] and [""] are both falsy. *)
Definition str_or (x : option string) (d : string) : string :=
  match x with
  | Some (String c s) => String c s
  | _ => d
  end.

Definition str_truthy (s : string) : bool :=
  match s with
  | EmptyString => false
  | _ => true
  end.

Fixpoint ascii_only (s : string) : bool :=
  match s with
  | EmptyString => true
  | String c s' => (N_of_ascii c <? 128)%N && ascii_only s'
  end.

(** Removal of the characters [sp] accepts from both ends. *)
Fixpoint lstrip (sp : ascii -> bool) (s : string) : string :=
  match s with
  | EmptyString => EmptyString
  | String c s' => if sp c then lstrip sp s' else s
  end.

Fixpoint rstrip (sp : ascii -> bool) (s : string) : string :=
  match s with
  | EmptyString => EmptyString
  | String c s' =>
      match rstrip sp s' with
      | EmptyString => if sp c then EmptyString else String c EmptyString
      | r => String c r
      end
  end.

Definition strip (sp : ascii -> bool) (s : string) : string :=
  rstrip sp (lstrip sp s).

(** The ASCII characters [str.isspace] accepts: 9..13 and 28..32. *)
Definition is_space (c : ascii) : bool :=
  let n := N_of_ascii c in
  ((9 <=? n)%N && (n <=? 13)%N) || ((28 <=? n)%N && (n <=? 32)%N).

(** The blanks [int] skips around an ASCII numeral: 9..13 and 32. *)
Definition is_blank (c : ascii) : bool :=
  let n := N_of_ascii c in
  ((9 <=? n)%N && (n <=? 13)%N) || (n =? 32)%N.

Definition digit_of_ascii (c : ascii) : option Z :=
  let n := Z.of_N (N_of_ascii c) in
  if (48 <=? n) && (n <=? 57) then Some (n - 48) else None.

(** Decimal digits in which single underscores may separate two digits:
    the value and the number of digits. *)
Fixpoint parse_grouped (acc count : Z) (after_digit : bool) (s : string)
  : option (Z * Z) :=
  match s with
  | EmptyString => if after_digit then Some (acc, count) else None
  | String c s' =>
      match digit_of_ascii c with
      | Some d => parse_grouped (10 * acc + d) (count + 1) true s'
      | None =>
          if Ascii.eqb c "_" && after_digit
          then parse_grouped acc count false s'
          else None
      end
  end.

(** The default of [sys.get_int_max_str_digits()]. *)
Definition INT_MAX_STR_DIGITS : Z := 4300.

(** [int(s)] on a string: blanks around an optional sign and decimal
    digits, of which there are at most 4300; otherwise [ValueError]. *)
Definition int_of_str (s : string) : result Z :=
  if negb (ascii_only s) then Unsupported
  else
    let '(negative, digits) :=
      match strip is_blank s with
      | String "-"%char s' => (true, s')
      | String "+"%char s' => (false, s')
      | s' => (false, s')
      end in
    match parse_grouped 0 0 false digits with
    | Some (n, count) =>
        if INT_MAX_STR_DIGITS <? count then Raise ValueError
        else Ok (if negative then - n else n)
    | None => Raise ValueError
    end.

(** ** The [decimal] module, as far as [wei_to_eth] uses it *)

Module decimal.

(** A decimal number: sign, coefficient and exponent, or one of the
    special values.  The sign and payload of a NaN are not kept. *)
Inductive Decimal : Type :=
| Finite (negative : bool) (coefficient : Z) (exponent : Z)
| Infinity (negative : bool)
| NaN (signaling : bool).

(** The default context: precision, exponent limits; the traps include
    [InvalidOperation] and [Overflow] but not [Underflow]. *)
Definition prec : Z := 28.
Definition Emax : Z := 999999.
Definition Emin : Z := -999999.
Definition Etiny : Z := Emin - (prec - 1).

(** The limits of an exact conversion (a 64-bit build). *)
Definition MAX_EMAX : Z := 999999999999999999.
Definition MIN_ETINY : Z := -1999999999999999997.

Definition nb_digits (n : Z) : Z :=
  match n with
  | Zpos p => Z.of_nat (Decimal.nb_digits (Pos.to_uint p))
  | _ => 0
  end.

(** The exponent of the leading digit. *)
Definition adjusted (coefficient exponent : Z) : Z :=
  nb_digits coefficient - 1 + exponent.

(** [floor (log10 |q|)] for [q <> 0]. *)
Definition ilog10 (q : Q) : Z :=
  let e := nb_digits (Z.abs (Qnum q)) - nb_digits (Zpos (Qden q)) in
  if Qle_bool (pow10 e) (Qabs q) then e else e - 1.

Fixpoint remove_underscores (s : string) : string :=
  match s with
  | EmptyString => EmptyString
  | String c s' =>
      if Ascii.eqb c "_" then remove_underscores s'
      else String c (remove_underscores s')
  end.

(** The leading decimal digits of a string: their value, their number,
    and the rest of the string. *)
Fixpoint span_digits (acc count : Z) (s : string) : Z * Z * string :=
  match s with
  | EmptyString => (acc, count, EmptyString)
  | String c s' =>
      match digit_of_ascii c with
      | Some d => span_digits (10 * acc + d) (count + 1) s'
      | None => (acc, count, s)
      end
  end.

(** The exponent part: nothing, or [e], an optional sign and digits. *)
Definition parse_exponent (s : string) : option Z :=
  match s with
  | EmptyString => Some 0
  | String "e"%char s' =>
      let '(negative, digits) :=
        match s' with
        | String "-"%char s'' => (true, s'')
        | String "+"%char s'' => (false, s'')
        | _ => (false, s')
        end in
      match span_digits 0 0 digits with
      | (n, count, EmptyString) =>
          if 0 <? count then Some (if negative then - n else n) else None
      | _ => None
      end
  | _ => None
  end.

(** A numeral in lower case and without sign: digits with at most one
    point and at least one digit, then the exponent part. *)
Definition parse_number (s : string) : option (Z * Z) :=
  let '(int_part, int_count, rest) := span_digits 0 0 s in
  let '(coefficient, frac_count, rest) :=
    match rest with
    | String "."%char rest' => span_digits int_part 0 rest'
    | _ => (int_part, 0, rest)
    end in
  if 0 <? int_count + frac_count then
    e ← parse_exponent rest; Some (coefficient, e - frac_count)
  else None.

(** The digits of a NaN's payload, possibly none. *)
Definition is_payload (s : string) : bool :=
  match span_digits 0 0 s with
  | (_, _, EmptyString) => true
  | _ => false
  end.

(** [Decimal(s)]: blanks are removed from both ends and underscores
    anywhere; what remains is a sign followed by a numeral, by [inf] or
    [infinity], or by [nan] or [snan] and a payload, in either case of
    the letters.  The conversion is exact, and fails if the number is
    beyond the limits of the library. *)
Definition of_str (s : string) : result Decimal :=
  if negb (ascii_only s) then Unsupported
  else
    let '(negative, body) :=
      match remove_underscores (strip is_space s) with
      | String "-"%char s' => (true, lower s')
      | String "+"%char s' => (false, lower s')
      | s' => (false, lower s')
      end in
    match body with
    | "inf" | "infinity" => Ok (Infinity negative)
    | String "n" (String "a" (String "n" payload)) =>
        if is_payload payload then Ok (NaN false) else Raise InvalidOperation
    | String "s" (String "n" (String "a" (String "n" payload))) =>
        if is_payload payload then Ok (NaN true) else Raise InvalidOperation
    | _ =>
        match parse_number body with
        | Some (c, e) =>
            if (MIN_ETINY <=? e)
               && (if c =? 0 then e <=? MAX_EMAX
                   else adjusted c e <=? MAX_EMAX)
            then Ok (Finite negative c e)
            else Raise InvalidOperation
        | None => Raise InvalidOperation
        end
    end.

(** [d / n] for a nonzero [int] in the default context: the quotient
    rounded to [prec] significant digits, ties to even; [Overflow] if
    its leading digit is beyond [Emax]; rounded to a multiple of
    10^[Etiny] if it is below [Emin]. *)
Definition truediv_int (d : Decimal) (n : Z) : result Decimal :=
  match d with
  | NaN true => Raise InvalidOperation
  | NaN false => Ok (NaN false)
  | Infinity negative => Ok (Infinity (xorb negative (n <? 0)))
  | Finite negative c e =>
      let negative := xorb negative (n <? 0) in
      if c =? 0 then Ok (Finite negative 0 (Z.max Etiny (Z.min e Emax)))
      else
        let r := (inject_Z c / inject_Z (Z.abs n))%Q in
        let t := ilog10 r in
        let c1 := rne (r * pow10 (prec - 1 - t)) in
        let e1 := e + t - (prec - 1) in
        if Emax <? adjusted c1 e1 then Raise Overflow
        else if adjusted c1 e1 <? Emin then
          Ok (Finite negative
                (if e + t + 1 <? Etiny then 0
                 else rne (r * pow10 (e - Etiny)))
                Etiny)
        else Ok (Finite negative c1 e1)
  end.

(** [float(d)]: the float nearest to a finite [d].  A number whose
    leading digit has an exponent above 400 is beyond all floats, one
    below -400 is nearer to 0 than to any other float. *)
Definition to_float (d : Decimal) : result float :=
  match d with
  | NaN true => Raise ValueError
  | NaN false => Unsupported
  | Infinity _ => Unsupported
  | Finite negative c e =>
      if c =? 0 then Ok (fl 0)
      else if 400 <? adjusted c e then Unsupported
      else if adjusted c e <? -400 then Ok (fl 0)
      else
        finite (fl (inject_Z (if negative then - c else c) * pow10 e))
  end.

(** Exception classes reachable as attributes of the class [Decimal]:
    there are none; [InvalidOperation] is an attribute of the module, so
    [Decimal.InvalidOperation] raises [AttributeError]. *)
Definition class_attr (name : string) : result exn :=
  Raise AttributeError.

End decimal.

(** [min(l)] and [max(l)] on a list of ints, [None] standing for the
    [ValueError] of an empty argument, which no caller reaches. *)
Definition py_min (l : list Z) : option Z :=
  match l with
  | [] => None
  | x :: l' => Some (fold_left Z.min l' x)
  end.

Definition py_max (l : list Z) : option Z :=
  match l with
  | [] => None
  | x :: l' => Some (fold_left Z.max l' x)
  end.

Definition len {A} (l : list A) : Z := Z.of_nat (length l).

(** One transfer record: the keys the engine reads. *)
Record tx : Type := mk_tx {
  tx_from : option string;
  tx_to : option string;
  tx_value : option string;
  tx_timeStamp : option string
}.

(** ** behavior.py *)

Module behavior.

Definition WEI_PER_ETH : Z := 10 ^ 18.

Definition wei_to_eth (wei_str : string) : result float :=
  try_except
    (d ← decimal.of_str wei_str;
     q ← decimal.truediv_int d WEI_PER_ETH;
     decimal.to_float q)
    (c ← decimal.class_attr "InvalidOperation";
     Ok [TypeError; ValueError; c])
    (Ok (fl 0.0)).

(** The accumulators of the loop of [analyze_transactions]. *)
Record acc : Type := mk_acc {
  acc_total_in_eth : float;
  acc_total_out_eth : float;
  acc_counterparties : gset string;
  acc_large_transfers : Z;
  acc_timestamps : list Z
}.

(** [if a: s.add(a)]. *)
Definition add_truthy (a : string) (s : gset string) : gset string :=
  if str_truthy a then {[ a ]} ∪ s else s.

Definition wallet_truthy (wallet_address : option string) : option string :=
  match wallet_address with
  | Some w => if str_truthy w then Some w else None
  | None => None
  end.

Definition body (wallet_address : option string) (a : acc) (t : tx)
  : result acc :=
  let from_addr := lower (str_or (tx_from t) "") in
  let to_addr := lower (str_or (tx_to t) "") in
  let value_wei := str_or (tx_value t) "0" in
  value_eth ← wei_to_eth value_wei;
  timestamps ←
    match tx_timeStamp t with
    | Some ts =>
        if str_truthy ts then
          try_except
            (n ← int_of_str ts; Ok (acc_timestamps a ++ [n]))
            (Ok [TypeError; ValueError])
            (Ok (acc_timestamps a))
        else Ok (acc_timestamps a)
    | None => Ok (acc_timestamps a)
    end;
  '(total_in_eth, total_out_eth, counterparties) ←
    match wallet_truthy wallet_address with
    | Some w =>
        let addr_lower := lower w in
        '(total_out_eth, counterparties) ←
          (if bool_decide (from_addr = addr_lower)
           then
             total_out_eth ← finite (fadd (acc_total_out_eth a) value_eth);
             Ok (total_out_eth, add_truthy to_addr (acc_counterparties a))
           else Ok (acc_total_out_eth a, acc_counterparties a));
        '(total_in_eth, counterparties) ←
          (if bool_decide (to_addr = addr_lower)
           then
             total_in_eth ← finite (fadd (acc_total_in_eth a) value_eth);
             Ok (total_in_eth, add_truthy from_addr counterparties)
           else Ok (acc_total_in_eth a, counterparties));
        Ok (total_in_eth, total_out_eth, counterparties)
    | None =>
        total_out_eth ← finite (fadd (acc_total_out_eth a) value_eth);
        Ok (acc_total_in_eth a,
            total_out_eth,
            add_truthy to_addr (add_truthy from_addr (acc_counterparties a)))
    end;
  let large_transfers :=
    if fleb (fl 10.0) value_eth
    then acc_large_transfers a + 1
    else acc_large_transfers a in
  Ok (mk_acc total_in_eth total_out_eth counterparties large_transfers
             timestamps).

Definition acc0 : acc := mk_acc (fl 0.0) (fl 0.0) ∅ 0 [].

(** The dict returned by [analyze_transactions]. *)
Record metrics : Type := mk_metrics {
  total_txs : Z;
  total_in_eth : float;
  total_out_eth : float;
  unique_counterparties : Z;
  first_seen : option Z;
  last_seen : option Z;
  large_transfers_count : Z
}.

Definition finish (transactions : list tx) (a : acc) : metrics :=
  {| total_txs := len transactions;
     total_in_eth := round (acc_total_in_eth a) 4;
     total_out_eth := round (acc_total_out_eth a) 4;
     unique_counterparties := Z.of_nat (size (acc_counterparties a));
     first_seen := py_min (acc_timestamps a);
     last_seen := py_max (acc_timestamps a);
     large_transfers_count := acc_large_transfers a |}.

Definition analyze_transactions (transactions : list tx)
    (wallet_address : option string) : result metrics :=
  a ← for_each (body wallet_address) transactions acc0;
  Ok (finish transactions a).

End behavior.

(** ** intelligence.py *)

Module intelligence.

Inductive verdict_t : Set :=
| VERDICT_SMART_MONEY_ACCUMULATION
| VERDICT_STEALTH_DISTRIBUTION
| VERDICT_EXCHANGE_ROTATION
| VERDICT_WHALE_DORMANT
| VERDICT_NEUTRAL.

Inductive entity_t : Set :=
| ENTITY_WHALE
| ENTITY_DISTRIBUTOR
| ENTITY_ROUTER
| ENTITY_DORMANT_WHALE
| ENTITY_UNKNOWN.

#[global] Instance verdict_eq_dec : EqDecision verdict_t.
Proof. solve_decision. Defined.

(** The strings the constants stand for. *)
Definition verdict_str (v : verdict_t) : string :=
  match v with
  | VERDICT_SMART_MONEY_ACCUMULATION => "SMART_MONEY_ACCUMULATION"
  | VERDICT_STEALTH_DISTRIBUTION => "STEALTH_DISTRIBUTION"
  | VERDICT_EXCHANGE_ROTATION => "EXCHANGE_ROTATION"
  | VERDICT_WHALE_DORMANT => "WHALE_DORMANT"
  | VERDICT_NEUTRAL => "NEUTRAL"
  end.

Definition entity_str (e : entity_t) : string :=
  match e with
  | ENTITY_WHALE => "likely_individual_whale"
  | ENTITY_DISTRIBUTOR => "likely_distributor"
  | ENTITY_ROUTER => "likely_exchange_rotator"
  | ENTITY_DORMANT_WHALE => "likely_dormant_whale"
  | ENTITY_UNKNOWN => "unknown"
  end.

(** Scoring dimensions. *)
Definition INFLOW_OUTFLOW_RATIO_ACCUM : float := fl 1.5.
Definition OUTFLOW_INFLOW_RATIO_DIST : float := fl 1.5.
Definition NET_INFLOW_MIN_ETH : float := fl 50.0.
Definition NET_OUTFLOW_MIN_ETH : float := fl 50.0.
Definition TX_FREQ_HIGH_TXS_PER_DAY : float := fl 0.5.
Definition TX_FREQ_LOW_TXS_PER_DAY : float := fl 0.1.
Definition TX_FREQ_MIN_DAYS : float := fl 1.0.
Definition COUNTERPARTIES_MANY : Z := 15.
Definition COUNTERPARTIES_FEW : Z := 10.
Definition LARGE_TRANSFER_ETH : float := fl 10.0.
Definition SPIKE_ETH : float := fl 25.0.
Definition LARGE_TRANSFERS_MIN_COUNT : Z := 2.
Definition WHALE_HISTORICAL_ETH : float := fl 200.0.
Definition RECENCY_DAYS : Z := 30.
Definition RECENCY_MAX_TXS_DORMANT : Z := 3.
Definition RECENCY_MIN_HISTORICAL_TXS : Z := 10.
Definition RECENCY_SPAN_DAYS_WHALE : Z := 60.
Definition EXCHANGE_ROTATION_MIN_TXS : Z := 30.
Definition TIMING_MIN_TXS_FOR_PATTERN : Z := 5.

(** Truthiness of an optional int: [None] and [0] are falsy. *)
Definition int_truthy (x : option Z) : bool :=
  match x with
  | Some n => negb (n =? 0)
  | None => false
  end.

Definition _seconds_to_days (seconds : Z) : result float :=
  if negb (seconds =? 0) then int_truediv seconds (24 * 3600)
  else Ok (fl 0.0).

(** The accumulators of the loop of [_compute_intelligence_metrics]. *)
Record loop_state : Type := mk_loop_state {
  st_recent_tx_count : Z;
  st_spike_count : Z;
  st_spike_total_eth : float;
  st_in_values : list float;
  st_out_values : list float;
  st_tx_timestamps : list Z
}.

Definition loop_state0 : loop_state :=
  mk_loop_state 0 0 (fl 0.0) [] [] [].

Definition loop_body (wallet_lower : string) (recent_cutoff_ts : Z)
    (s : loop_state) (t : tx) : result loop_state :=
  let from_addr := lower (str_or (tx_from t) "") in
  let to_addr := lower (str_or (tx_to t) "") in
  value_eth ← behavior.wei_to_eth (str_or (tx_value t) "0");
  ts_int ←
    try_except
      (match tx_timeStamp t with
       | Some ts => n ← int_of_str ts; Ok (Some n)
       | None => Ok None
       end)
      (Ok [TypeError; ValueError])
      (Ok None);
  let '(tx_timestamps, recent_tx_count) :=
    match ts_int with
    | Some n =>
        (st_tx_timestamps s ++ [n],
         if recent_cutoff_ts <=? n
         then st_recent_tx_count s + 1
         else st_recent_tx_count s)
    | None => (st_tx_timestamps s, st_recent_tx_count s)
    end in
  '(spike_count, spike_total_eth) ←
    (if fleb SPIKE_ETH value_eth
     then
       spike_total_eth ← finite (fadd (st_spike_total_eth s) value_eth);
       Ok (st_spike_count s + 1, spike_total_eth)
     else Ok (st_spike_count s, st_spike_total_eth s));
  let '(in_values, out_values) :=
    if str_truthy wallet_lower then
      let out_values :=
        if bool_decide (from_addr = wallet_lower)
        then st_out_values s ++ [value_eth]
        else st_out_values s in
      let in_values :=
        if bool_decide (to_addr = wallet_lower)
        then st_in_values s ++ [value_eth]
        else st_in_values s in
      (in_values, out_values)
    else (st_in_values s, st_out_values s) in
  Ok (mk_loop_state recent_tx_count spike_count spike_total_eth
                    in_values out_values tx_timestamps).

(** [sorted(l, key=key)]: a stable sort in ascending order of the keys. *)
Fixpoint insert_sorted {A} (key : A -> float) (x : A) (l : list A) : list A :=
  match l with
  | [] => [x]
  | y :: l' =>
      if fltb (key x) (key y) then x :: y :: l'
      else y :: insert_sorted key x l'
  end.

Definition sorted_by {A} (key : A -> float) (l : list A) : list A :=
  fold_left (fun acc x => insert_sorted key x acc) l [].

Definition sorted (l : list float) : list float := sorted_by id l.

(** [hour_counts[(ts // 3600) % 24] += 1] on a [defaultdict(int)]. *)
Definition count_hour (hour_counts : gmap Z Z) (ts : Z) : gmap Z Z :=
  let h := (ts / 3600) mod 24 in
  <[ h := default 0 (hour_counts !! h) + 1 ]> hour_counts.

Definition dict_values (m : gmap Z Z) : list Z := (map_to_list m).*2.

(** The metrics bag returned by [_compute_intelligence_metrics]. *)
Record metrics : Type := mk_metrics {
  total_in_eth : float;
  total_out_eth : float;
  net_eth : float;
  inflow_outflow_ratio : option float;
  outflow_inflow_ratio : option float;
  total_txs : Z;
  span_days : float;
  tx_frequency : float;
  unique_counterparties : Z;
  large_transfers_count : Z;
  spike_count : Z;
  spike_total_eth : float;
  recent_tx_count : Z;
  first_seen : option Z;
  last_seen : option Z;
  staggered_exits : bool;
  repeated_timing : bool;
  total_flow_eth : float;
  historically_large : bool;
  dormant_candidate : bool;
  num_inflows : Z;
  num_outflows : Z
}.

Definition recent_cutoff (base : behavior.metrics) : Z :=
  let last_ts := behavior.last_seen base in
  let now_ts := if int_truthy last_ts then default 0 last_ts else 0 in
  if negb (now_ts =? 0) then now_ts - RECENCY_DAYS * 24 * 3600 else 0.

Definition _compute_intelligence_metrics (transactions : list tx)
    (wallet_address : string) : result metrics :=
  base ← behavior.analyze_transactions transactions (Some wallet_address);
  let wallet_lower := lower wallet_address in
  let total_in := behavior.total_in_eth base in
  let total_out := behavior.total_out_eth base in
  net_eth ← finite (fsub total_in total_out);
  let total_txs := behavior.total_txs base in
  let num_counterparties := behavior.unique_counterparties base in
  let large_transfers_count := behavior.large_transfers_count base in
  let first_ts := behavior.first_seen base in
  let last_ts := behavior.last_seen base in
  let span_seconds :=
    if int_truthy first_ts && int_truthy last_ts
    then default 0 last_ts - default 0 first_ts
    else 0 in
  span_days ← _seconds_to_days span_seconds;
  let tx_frequency :=
    if fleb TX_FREQ_MIN_DAYS span_days
    then fdiv (of_int total_txs) span_days
    else fl 0.0 in
  let recent_cutoff_ts := recent_cutoff base in
  inflow_outflow_ratio ←
    (if fltb (fl 0) total_out then finite (fdiv total_in total_out)
     else Ok (if fnonzero total_in then fmul total_in (fl 10.0) else fl 0));
  outflow_inflow_ratio ←
    (if fltb (fl 0) total_in then finite (fdiv total_out total_in)
     else Ok (if fnonzero total_out then fmul total_out (fl 10.0) else fl 0));
  s ← for_each (loop_body wallet_lower recent_cutoff_ts) transactions
        loop_state0;
  let out_values := st_out_values s in
  let out_values_sorted :=
    match out_values with
    | [] => []
    | _ => sorted out_values
    end in
  let median_out :=
    default (fl 0.0)
            (out_values_sorted !! (length out_values_sorted / 2)%nat) in
  let staggered_exits :=
    (5 <=? len out_values) && fltb median_out LARGE_TRANSFER_ETH
    && fltb NET_OUTFLOW_MIN_ETH total_out in
  let hour_counts := fold_left count_hour (st_tx_timestamps s) ∅ in
  let max_same_hour := default 0 (py_max (dict_values hour_counts)) in
  let repeated_timing := TIMING_MIN_TXS_FOR_PATTERN <=? max_same_hour in
  total_flow_eth ← finite (fadd total_in total_out);
  let historically_large := fleb WHALE_HISTORICAL_ETH total_flow_eth in
  let dormant_candidate :=
    (RECENCY_MIN_HISTORICAL_TXS <=? total_txs)
    && (st_recent_tx_count s <=? RECENCY_MAX_TXS_DORMANT)
    && historically_large in
  Ok {| total_in_eth := total_in;
        total_out_eth := total_out;
        net_eth := net_eth;
        inflow_outflow_ratio :=
          if fltb (fl 0) total_out
          then Some (round inflow_outflow_ratio 4) else None;
        outflow_inflow_ratio :=
          if fltb (fl 0) total_in
          then Some (round outflow_inflow_ratio 4) else None;
        total_txs := total_txs;
        span_days := round span_days 2;
        tx_frequency :=
          if fnonzero tx_frequency then round tx_frequency 4 else fl 0.0;
        unique_counterparties := num_counterparties;
        large_transfers_count := large_transfers_count;
        spike_count := st_spike_count s;
        spike_total_eth := round (st_spike_total_eth s) 4;
        recent_tx_count := st_recent_tx_count s;
        first_seen := first_ts;
        last_seen := last_ts;
        staggered_exits := staggered_exits;
        repeated_timing := repeated_timing;
        total_flow_eth := round total_flow_eth 4;
        historically_large := historically_large;
        dormant_candidate := dormant_candidate;
        num_inflows := len (st_in_values s);
        num_outflows := len out_values |}.
(** *** Scoring rules *)

Definition signal : Type := float * (metrics -> bool).

(** [sum(...)] of floats, added left to right starting from [0]. *)
Definition fsum (l : list float) : float := fold_left fadd l (fl 0).

Definition _score_signals (m : metrics) (signals : list signal) : float :=
  fsum (fst <$> filter (fun s => snd s m = true) signals).

(** [x or 0] on an optional float. *)
Definition float_or_0 (x : option float) : float :=
  match x with
  | Some v => if fnonzero v then v else fl 0
  | None => fl 0
  end.

Definition SIGNALS_ACCUMULATION : list signal :=
  [ (fl 0.30, fun m =>
       fleb INFLOW_OUTFLOW_RATIO_ACCUM (float_or_0 (inflow_outflow_ratio m)));
    (fl 0.25, fun m => fleb NET_INFLOW_MIN_ETH (net_eth m));
    (fl 0.20, fun m =>
       (3 <=? num_inflows m) && fleb NET_INFLOW_MIN_ETH (total_in_eth m));
    (fl 0.15, fun m =>
       (unique_counterparties m <=? COUNTERPARTIES_FEW)
       && fleb LARGE_TRANSFER_ETH (total_in_eth m));
    (fl 0.10, fun m =>
       LARGE_TRANSFERS_MIN_COUNT <=? large_transfers_count m) ].

Definition MAX_SCORE_ACCUMULATION : float :=
  fsum (fst <$> SIGNALS_ACCUMULATION).

Definition SIGNALS_DISTRIBUTION : list signal :=
  [ (fl 0.30, fun m =>
       fleb OUTFLOW_INFLOW_RATIO_DIST (float_or_0 (outflow_inflow_ratio m)));
    (fl 0.25, fun m => fleb (net_eth m) (fneg NET_OUTFLOW_MIN_ETH));
    (fl 0.20, fun m => staggered_exits m);
    (fl 0.15, fun m => 5 <=? num_outflows m);
    (fl 0.10, fun m =>
       (1 <=? spike_count m) && fltb (total_in_eth m) (total_out_eth m)) ].

Definition MAX_SCORE_DISTRIBUTION : float :=
  fsum (fst <$> SIGNALS_DISTRIBUTION).

Definition SIGNALS_EXCHANGE_ROTATION : list signal :=
  [ (fl 0.35, fun m => COUNTERPARTIES_MANY <=? unique_counterparties m);
    (fl 0.30, fun m =>
       fleb TX_FREQ_HIGH_TXS_PER_DAY (tx_frequency m)
       || (EXCHANGE_ROTATION_MIN_TXS <=? total_txs m));
    (fl 0.20, fun m => fleb WHALE_HISTORICAL_ETH (total_flow_eth m));
    (fl 0.15, fun m => repeated_timing m) ].

Definition MAX_SCORE_EXCHANGE_ROTATION : float :=
  fsum (fst <$> SIGNALS_EXCHANGE_ROTATION).

Definition SIGNALS_WHALE_DORMANT : list signal :=
  [ (fl 0.45, fun m => dormant_candidate m);
    (fl 0.30, fun m =>
       (recent_tx_count m <=? RECENCY_MAX_TXS_DORMANT)
       && historically_large m);
    (fl 0.25, fun m =>
       fleb (of_int RECENCY_SPAN_DAYS_WHALE) (span_days m)
       && (recent_tx_count m <=? 2)) ].

Definition MAX_SCORE_WHALE_DORMANT : float :=
  fsum (fst <$> SIGNALS_WHALE_DORMANT).

(** A dict keyed by verdict, in insertion order. *)
Definition score_map : Type := list (verdict_t * float).

Definition _compute_all_scores (m : metrics) : score_map :=
  let raw :=
    [ (VERDICT_SMART_MONEY_ACCUMULATION,
       fdiv (_score_signals m SIGNALS_ACCUMULATION) MAX_SCORE_ACCUMULATION);
      (VERDICT_STEALTH_DISTRIBUTION,
       fdiv (_score_signals m SIGNALS_DISTRIBUTION) MAX_SCORE_DISTRIBUTION);
      (VERDICT_EXCHANGE_ROTATION,
       fdiv (_score_signals m SIGNALS_EXCHANGE_ROTATION)
            MAX_SCORE_EXCHANGE_ROTATION);
      (VERDICT_WHALE_DORMANT,
       fdiv (_score_signals m SIGNALS_WHALE_DORMANT)
            MAX_SCORE_WHALE_DORMANT) ] in
  (fun kv => (fst kv, fmin (fl 1.0) (round (snd kv) 4))) <$> raw.

(** *** Confidence *)

Definition CONFIDENCE_MIN : float := fl 0.30.
Definition CONFIDENCE_MAX : float := fl 0.95.
Definition CONFIDENCE_STRENGTH_WEIGHT : float := fl 0.50.
Definition CONFIDENCE_MARGIN_WEIGHT : float := fl 0.35.
Definition CONFIDENCE_DATA_WEIGHT : float := fl 0.15.
Definition DATA_QUALITY_TXS_FLOOR : Z := 10.
Definition DATA_QUALITY_TXS_CEILING : Z := 80.

(** [scores[k]]; every key looked up was taken from the dict itself. *)
Fixpoint get_score (scores : score_map) (k : verdict_t) : float :=
  match scores with
  | [] => fl 0.0
  | kv :: rest => if bool_decide (fst kv = k) then snd kv else get_score rest k
  end.

(** The data-quality component of [_compute_confidence].  [txs] is the
    length of the transfer list, for which [/] cannot overflow: the
    quotients are those of [int_quotient]. *)
Definition data_quality (txs : Z) : float :=
  if txs <=? DATA_QUALITY_TXS_FLOOR
  then int_quotient txs DATA_QUALITY_TXS_FLOOR
  else fmin (fl 1.0)
            (int_quotient (txs - DATA_QUALITY_TXS_FLOOR)
               (DATA_QUALITY_TXS_CEILING - DATA_QUALITY_TXS_FLOOR)).

Definition _compute_confidence (best_verdict : verdict_t) (scores : score_map)
    (m : metrics) (neutral_fallback : bool) : float :=
  if neutral_fallback then round (fadd CONFIDENCE_MIN (fl 0.15)) 2
  else
    let strength := get_score scores best_verdict in
    let ordered := sorted_by (fun x => fneg (snd x)) scores in
    let second_score :=
      match ordered !! 1%nat with
      | Some kv => snd kv
      | None => fl 0.0
      end in
    let margin := fmin (fl 1.0) (fmax (fl 0.0) (fsub strength second_score)) in
    let txs := total_txs m in
    let confidence :=
      fadd CONFIDENCE_MIN
        (fmul (fsub CONFIDENCE_MAX CONFIDENCE_MIN)
           (fadd
              (fadd (fmul CONFIDENCE_STRENGTH_WEIGHT strength)
                    (fmul CONFIDENCE_MARGIN_WEIGHT margin))
              (fmul CONFIDENCE_DATA_WEIGHT (data_quality txs)))) in
    round (fmin CONFIDENCE_MAX (fmax CONFIDENCE_MIN confidence)) 2.

(** [max(scores, key=scores.get)]: the first key, in insertion order, whose
    score no later key exceeds.  The dict is never empty. *)
Definition max_key (scores : score_map) : verdict_t :=
  match scores with
  | [] => VERDICT_NEUTRAL
  | kv :: rest =>
      fst (fold_left
             (fun best kv' => if fltb (snd best) (snd kv') then kv' else best)
             rest kv)
  end.

(** The sentence of [_behavior_summary]: which template, and the values
    it interpolates (the rendering of their digits is not modelled). *)
Inductive summary : Type :=
| SummaryAccumulation (net_eth : float) (unique_counterparties : Z)
| SummaryDistribution (net_eth : float)
| SummaryExchangeRotation (unique_counterparties total_txs : Z)
| SummaryWhaleDormant (total_flow_eth : float) (recent_tx_count : Z)
| SummaryNoSignal
| SummaryNoData.

Definition _behavior_summary (v : verdict_t) (m : metrics) (score : float)
  : summary :=
  match v with
  | VERDICT_SMART_MONEY_ACCUMULATION =>
      SummaryAccumulation (net_eth m) (unique_counterparties m)
  | VERDICT_STEALTH_DISTRIBUTION => SummaryDistribution (net_eth m)
  | VERDICT_EXCHANGE_ROTATION =>
      SummaryExchangeRotation (unique_counterparties m) (total_txs m)
  | VERDICT_WHALE_DORMANT =>
      SummaryWhaleDormant (total_flow_eth m) (recent_tx_count m)
  | VERDICT_NEUTRAL => SummaryNoSignal
  end.

Definition entity_map (v : verdict_t) : entity_t :=
  match v with
  | VERDICT_SMART_MONEY_ACCUMULATION => ENTITY_WHALE
  | VERDICT_STEALTH_DISTRIBUTION => ENTITY_DISTRIBUTOR
  | VERDICT_EXCHANGE_ROTATION => ENTITY_ROUTER
  | VERDICT_WHALE_DORMANT => ENTITY_DORMANT_WHALE
  | VERDICT_NEUTRAL => ENTITY_UNKNOWN
  end.

Definition _pick_verdict_and_confidence (m : metrics)
  : verdict_t * entity_t * float * summary :=
  let scores := _compute_all_scores m in
  let best_verdict := max_key scores in
  let best_score := get_score scores best_verdict in
  let neutral_fallback := fltb best_score (fl 0.30) in
  let best_verdict :=
    if neutral_fallback then VERDICT_NEUTRAL else best_verdict in
  let entity_inference := entity_map best_verdict in
  let confidence :=
    _compute_confidence best_verdict scores m neutral_fallback in
  let summary := _behavior_summary best_verdict m best_score in
  (best_verdict, entity_inference, confidence, summary).

(** The value under the key [metrics_used] of the result. *)
Inductive metrics_used_t : Type :=
| KeyAbsent
| ValueNone
| EmptyDict
| Bag (m : metrics).

(** The result dict of [classify_wallet]. *)
Record classification : Type := mk_classification {
  address : string;
  verdict : verdict_t;
  confidence : float;
  entity_inference : entity_t;
  entity_type : entity_t;
  behavior_summary : summary;
  metrics_used : metrics_used_t
}.

(** [{k: round(v, 4) if isinstance(v, float) else v}] over the bag. *)
Definition round_floats (m : metrics) : metrics :=
  {| total_in_eth := round (total_in_eth m) 4;
     total_out_eth := round (total_out_eth m) 4;
     net_eth := round (net_eth m) 4;
     inflow_outflow_ratio := (fun v => round v 4) <$> inflow_outflow_ratio m;
     outflow_inflow_ratio := (fun v => round v 4) <$> outflow_inflow_ratio m;
     total_txs := total_txs m;
     span_days := round (span_days m) 4;
     tx_frequency := round (tx_frequency m) 4;
     unique_counterparties := unique_counterparties m;
     large_transfers_count := large_transfers_count m;
     spike_count := spike_count m;
     spike_total_eth := round (spike_total_eth m) 4;
     recent_tx_count := recent_tx_count m;
     first_seen := first_seen m;
     last_seen := last_seen m;
     staggered_exits := staggered_exits m;
     repeated_timing := repeated_timing m;
     total_flow_eth := round (total_flow_eth m) 4;
     historically_large := historically_large m;
     dormant_candidate := dormant_candidate m;
     num_inflows := num_inflows m;
     num_outflows := num_outflows m |}.

Definition classify_wallet (transactions : list tx) (wallet_address : string)
    (include_metrics : bool) : result classification :=
  match transactions with
  | [] =>
      Ok {| address := wallet_address;
            verdict := VERDICT_NEUTRAL;
            confidence := fl 0.30;
            entity_inference := ENTITY_UNKNOWN;
            entity_type := ENTITY_UNKNOWN;
            behavior_summary := SummaryNoData;
            metrics_used := if include_metrics then EmptyDict else ValueNone |}
  | _ =>
      m ← _compute_intelligence_metrics transactions wallet_address;
      let '(verdict, entity_inference, confidence, behavior_summary) :=
        _pick_verdict_and_confidence m in
      Ok {| address := wallet_address;
            verdict := verdict;
            confidence := confidence;
            entity_inference := entity_inference;
            entity_type := entity_inference;
            behavior_summary := behavior_summary;
            metrics_used :=
              if include_metrics then Bag (round_floats m) else KeyAbsent |}
  end.

End intelligence.

(** * Properties *)

Import intelligence.

(** ** Comparisons of floats *)

Lemma fleb_le (x y : float) : fleb x y = true <-> (x <= y)%Q.
Proof. apply Qle_bool_iff. Qed.

Lemma fltb_lt (x y : float) : fltb x y = true <-> (x < y)%Q.
Proof.
  unfold fltb. rewrite negb_true_iff, <- not_true_iff_false, Qle_bool_iff.
  split; [apply Qnot_le_lt | apply Qlt_not_le].
Qed.

Lemma fltb_ge (x y : float) : fltb x y = false <-> (y <= x)%Q.
Proof.
  unfold fltb. rewrite negb_false_iff. apply Qle_bool_iff.
Qed.

Lemma fleb_gt (x y : float) : fleb x y = false <-> (y < x)%Q.
Proof.
  unfold fleb. rewrite <- not_true_iff_false, Qle_bool_iff.
  split; [apply Qnot_le_lt | apply Qlt_not_le].
Qed.




(** Equality of two floats is equality of the numbers they denote. *)
Ltac float_eq := apply Qc_is_canon; vm_compute; reflexivity.

(** ** Rounding to an integer and to binary64 *)

Lemma pow2_Qpower (e : Z) : (pow2 e == 2 ^ e)%Q.
Proof.
  unfold pow2. destruct (Z.leb_spec 0 e) as [H|H].
  - rewrite Zpower_Qpower by exact H. reflexivity.
  - rewrite Zpower_Qpower by lia.
    change (inject_Z 2) with 2%Q.
    rewrite Qpower_opp, Qinv_involutive. reflexivity.
Qed.

Lemma pow2_pos (e : Z) : (0 < pow2 e)%Q.
Proof. rewrite pow2_Qpower. apply Qpower_0_lt. reflexivity. Qed.

Lemma pow2_plus (a b : Z) : (pow2 (a + b) == pow2 a * pow2 b)%Q.
Proof.
  rewrite !pow2_Qpower. apply Qpower_plus. discriminate.
Qed.

Lemma pow2_le (a b : Z) : a <= b -> (pow2 a <= pow2 b)%Q.
Proof.
  intros H. rewrite !pow2_Qpower. apply Qpower_le_compat_l; [exact H|].
  discriminate.
Qed.

Lemma pow2_lt_inv (a b : Z) : (pow2 a < pow2 b)%Q -> a < b.
Proof.
  rewrite !pow2_Qpower. intros H.
  apply (Qpower_lt_compat_l_inv 2); [exact H|reflexivity].
Qed.

Lemma pow2_nonneg_Z (e : Z) : 0 <= e -> pow2 e = inject_Z (2 ^ e).
Proof.
  intros H. unfold pow2. destruct (Z.leb_spec 0 e); [reflexivity|lia].
Qed.

Lemma rne_comp (x y : Q) : (x == y)%Q -> rne x = rne y.
Proof.
  intros E. unfold rne. rewrite (Qfloor_comp _ _ E).
  assert (E' : (x - inject_Z (Qfloor y) == y - inject_Z (Qfloor y))%Q)
    by (rewrite E; reflexivity).
  rewrite (Qcompare_comp _ _ E' (1 # 2) (1 # 2) (Qeq_refl _)).
  reflexivity.
Qed.

Lemma rne_half (q : Q) :
  (inject_Z (rne q) - (1 # 2) <= q)%Q /\ (q <= inject_Z (rne q) + (1 # 2))%Q.
Proof.
  unfold rne.
  pose proof (Qfloor_le q) as Hlo. pose proof (Qlt_floor q) as Hhi.
  rewrite inject_Z_plus in Hhi. change (inject_Z 1) with 1%Q in Hhi.
  destruct (Qcompare_spec (q - inject_Z (Qfloor q)) (1 # 2)) as [E|E|E].
  - destruct (Z.even _); rewrite ?inject_Z_plus;
      change (inject_Z 1) with 1%Q; lra.
  - lra.
  - rewrite inject_Z_plus. change (inject_Z 1) with 1%Q. lra.
Qed.

Lemma pow2_minus (a b : Z) : (pow2 (a - b) == pow2 a / pow2 b)%Q.
Proof.
  rewrite !pow2_Qpower. apply Qpower_minus. discriminate.
Qed.

Lemma pow2_succ (a : Z) : (pow2 (a + 1) == 2 * pow2 a)%Q.
Proof. rewrite pow2_plus. change (pow2 1) with 2%Q. ring. Qed.

Lemma Qdiv_lt_cross (x d y e : Q) :
  (0 < d)%Q -> (0 < e)%Q -> (x * e < y * d)%Q -> (x / d < y / e)%Q.
Proof.
  intros Hd He H. apply Qlt_shift_div_r; [exact Hd|].
  assert (E : (y / e * d == y * d / e)%Q) by (field; lra).
  rewrite E. apply Qlt_shift_div_l; assumption.
Qed.

Lemma Qdiv_le_cross (x d y e : Q) :
  (0 < d)%Q -> (0 < e)%Q -> (x * e <= y * d)%Q -> (x / d <= y / e)%Q.
Proof.
  intros Hd He H. apply Qle_shift_div_r; [exact Hd|].
  assert (E : (y / e * d == y * d / e)%Q) by (field; lra).
  rewrite E. apply Qle_shift_div_l; assumption.
Qed.

(** [ilog2] is the binary exponent: 2^(ilog2 q) <= |q| < 2^(ilog2 q + 1). *)
Lemma ilog2_spec (q : Q) :
  ~ (q == 0)%Q ->
  (pow2 (ilog2 q) <= Qabs q)%Q /\ (Qabs q < pow2 (ilog2 q + 1))%Q.
Proof.
  intros Hq. destruct q as [n d]. unfold ilog2. cbn [Qnum Qden].
  assert (Hn : 0 < Z.abs n).
  { destruct n; try lia. exfalso. apply Hq. reflexivity. }
  set (a := Z.log2 (Z.abs n)). set (b := Z.log2 (Zpos d)).
  pose proof (Z.log2_spec _ Hn) as [Ha1 Ha2]. fold a in Ha1, Ha2.
  assert (Hd : 0 < Zpos d) by lia.
  pose proof (Z.log2_spec _ Hd) as [Hb1 Hb2]. fold b in Hb1, Hb2.
  assert (Ha0 : 0 <= a) by apply Z.log2_nonneg.
  assert (Hb0 : 0 <= b) by apply Z.log2_nonneg.
  rewrite Zle_Qle in Ha1, Hb1. rewrite Zlt_Qlt in Ha2, Hb2.
  rewrite <- (pow2_nonneg_Z a Ha0) in Ha1.
  rewrite <- (pow2_nonneg_Z b Hb0) in Hb1.
  rewrite <- (pow2_nonneg_Z (Z.succ a)) in Ha2 by lia.
  rewrite <- (pow2_nonneg_Z (Z.succ b)) in Hb2 by lia.
  unfold Z.succ in Ha2, Hb2. rewrite pow2_succ in Ha2, Hb2.
  pose proof (pow2_pos a) as HA. pose proof (pow2_pos b) as HB.
  assert (EQ : (Qabs (n # d) == inject_Z (Z.abs n) / inject_Z (Zpos d))%Q).
  { unfold Qabs. apply Qmake_Qdiv. }
  set (X := inject_Z (Z.abs n)) in *. set (D := inject_Z (Zpos d)) in *.
  assert (HD : (0 < D)%Q) by lra.
  assert (E1 : (pow2 (a - b) == pow2 a / pow2 b)%Q) by apply pow2_minus.
  destruct (Qle_bool (pow2 (a - b)) (Qabs (n # d))) eqn:T.
  - apply Qle_bool_iff in T. split; [exact T|].
    rewrite EQ, pow2_succ, E1.
    assert (E2 : (2 * (pow2 a / pow2 b) == (2 * pow2 a) / pow2 b)%Q)
      by (field; lra).
    rewrite E2. apply Qdiv_lt_cross; [lra|lra|]. nra.
  - assert (T' : (Qabs (n # d) < pow2 (a - b))%Q).
    { apply Qnot_le_lt. intros H. apply Qle_bool_iff in H. congruence. }
    split.
    + rewrite EQ.
      assert (E3 : (pow2 (a - b - 1) == pow2 a / (2 * pow2 b))%Q).
      { replace (a - b - 1) with (a - (b + 1)) by lia.
        rewrite pow2_minus, pow2_succ. reflexivity. }
      rewrite E3. apply Qdiv_le_cross; [lra|lra|]. nra.
    + replace (a - b - 1 + 1) with (a - b) by lia. exact T'.
Qed.

Lemma rne_ge (q : Q) (a : Z) : (inject_Z a - (1 # 2) < q)%Q -> a <= rne q.
Proof.
  intros H. unfold rne.
  pose proof (Qfloor_le q) as Hlo. pose proof (Qlt_floor q) as Hhi.
  rewrite inject_Z_plus in Hhi. change (inject_Z 1) with 1%Q in Hhi.
  assert (Ha : a <= Qfloor q + 1).
  { enough (a < Qfloor q + 2) by lia.
    rewrite Zlt_Qlt, inject_Z_plus.
    change (inject_Z 2) with 2%Q. lra. }
  destruct (Qcompare_spec (q - inject_Z (Qfloor q)) (1 # 2)) as [E|E|E].
  - assert (a <= Qfloor q); [|destruct (Z.even _); lia].
    enough (a < Qfloor q + 1) by lia.
    rewrite Zlt_Qlt, inject_Z_plus.
    change (inject_Z 1) with 1%Q. lra.
  - enough (a < Qfloor q + 1) by lia.
    rewrite Zlt_Qlt, inject_Z_plus.
    change (inject_Z 1) with 1%Q. lra.
  - exact Ha.
Qed.

Lemma rne_le (q : Q) (b : Z) : (q < inject_Z b + (1 # 2))%Q -> rne q <= b.
Proof.
  intros H. unfold rne.
  pose proof (Qfloor_le q) as Hlo. pose proof (Qlt_floor q) as Hhi.
  rewrite inject_Z_plus in Hhi. change (inject_Z 1) with 1%Q in Hhi.
  assert (Hb : Qfloor q <= b).
  { enough (Qfloor q < b + 1) by lia.
    rewrite Zlt_Qlt, inject_Z_plus.
    change (inject_Z 1) with 1%Q. lra. }
  destruct (Qcompare_spec (q - inject_Z (Qfloor q)) (1 # 2)) as [E|E|E].
  - assert (Qfloor q + 1 <= b); [|destruct (Z.even _); lia].
    enough (Qfloor q < b) by lia.
    rewrite Zlt_Qlt. lra.
  - exact Hb.
  - enough (Qfloor q < b) by lia.
    rewrite Zlt_Qlt. lra.
Qed.


Lemma rne_mono (x y : Q) : (x <= y)%Q -> rne x <= rne y.
Proof.
  intros H. destruct (Qlt_le_dec x y) as [Hlt|Hge].
  - apply rne_ge. pose proof (rne_half x). lra.
  - rewrite (rne_comp x y); [lia|]. apply Qle_antisym; assumption.
Qed.

Lemma rne_inject_Z (z : Z) : rne (inject_Z z) = z.
Proof.
  apply Z.le_antisymm; [apply rne_le|apply rne_ge]; lra.
Qed.

(** The exponent of the last place of the binary64 number nearest [q]. *)
Definition expo (q : Q) : Z := Z.max (ilog2 q - 52) (-1074).

Lemma fl_zero (q : Q) : (q == 0)%Q -> fl q = Q2Qc 0.
Proof.
  intros H. unfold fl. apply Qeq_bool_iff in H. rewrite H. reflexivity.
Qed.

Lemma fl_val (q : Q) :
  ~ (q == 0)%Q ->
  (fl q == inject_Z (rne (q / pow2 (expo q))) * pow2 (expo q))%Q.
Proof.
  intros H. unfold fl.
  destruct (Qeq_bool q 0) eqn:E; [apply Qeq_bool_iff in E; contradiction|].
  cbn [this Q2Qc]. apply Qred_correct.
Qed.

Lemma fl_mono_pos (q1 q2 : Q) :
  (0 < q1)%Q -> (q1 <= q2)%Q -> (fl q1 <= fl q2)%Q.
Proof.
  intros H1 H12.
  assert (N1 : ~ (q1 == 0)%Q) by lra. assert (N2 : ~ (q2 == 0)%Q) by lra.
  destruct (ilog2_spec q1 N1) as [S1 S1'].
  destruct (ilog2_spec q2 N2) as [S2 S2'].
  rewrite Qabs_pos in S1, S1', S2, S2' by lra.
  set (L1 := ilog2 q1) in *. set (L2 := ilog2 q2) in *.
  assert (HL : L1 <= L2).
  { destruct (Z_le_gt_dec L1 L2) as [|Hgt]; [assumption|].
    pose proof (pow2_le (L2 + 1) L1 ltac:(lia)). lra. }
  rewrite (fl_val q1 N1), (fl_val q2 N2). unfold expo. fold L1 L2.
  set (e1 := Z.max (L1 - 52) (-1074)). set (e2 := Z.max (L2 - 52) (-1074)).
  pose proof (pow2_pos e1) as P1. pose proof (pow2_pos e2) as P2.
  destruct (Z.eq_dec e1 e2) as [E|NE].
  - rewrite <- E. apply Qmult_le_compat_r; [|lra].
    rewrite <- Zle_Qle. apply rne_mono.
    apply Qmult_le_compat_r; [exact H12|].
    apply Qlt_le_weak, Qinv_lt_0_compat, P1.
  - assert (He : e2 = L2 - 52 /\ L1 < L2 /\ e1 < e2) by lia.
    destruct He as (He2 & HL' & He12).
    apply Qle_trans with (pow2 L2).
    + assert (Hk : rne (q1 / pow2 e1) <= 2 ^ (L2 - e1)).
      { apply rne_le. rewrite <- pow2_nonneg_Z by lia.
        rewrite pow2_minus.
        pose proof (pow2_le (L1 + 1) L2 ltac:(lia)).
        assert ((q1 / pow2 e1 < pow2 L2 / pow2 e1)%Q); [|lra].
        apply Qmult_lt_compat_r; [apply Qinv_lt_0_compat, P1|lra]. }
      rewrite Zle_Qle in Hk. rewrite <- pow2_nonneg_Z in Hk by lia.
      assert (E : (pow2 L2 == pow2 (L2 - e1) * pow2 e1)%Q).
      { rewrite <- pow2_plus. replace (L2 - e1 + e1) with L2 by lia.
        reflexivity. }
      rewrite E. apply Qmult_le_compat_r; [exact Hk|lra].
    + assert (Hk : 2 ^ 52 <= rne (q2 / pow2 e2)).
      { apply rne_ge. rewrite <- pow2_nonneg_Z by lia.
        replace 52 with (L2 - e2) by lia. rewrite pow2_minus.
        assert ((pow2 L2 / pow2 e2 <= q2 / pow2 e2)%Q); [|lra].
        apply Qmult_le_compat_r; [exact S2|].
        apply Qlt_le_weak, Qinv_lt_0_compat, P2. }
      rewrite Zle_Qle in Hk. rewrite <- pow2_nonneg_Z in Hk by lia.
      assert (E : (pow2 L2 == pow2 52 * pow2 e2)%Q).
      { rewrite <- pow2_plus. replace (52 + e2) with L2 by lia.
        reflexivity. }
      rewrite E. apply Qmult_le_compat_r; [exact Hk|lra].
Qed.

Lemma rne_opp (x : Q) : rne (- x) = - rne x.
Proof.
  unfold rne.
  pose proof (Qfloor_le x) as Hlo. pose proof (Qlt_floor x) as Hhi.
  pose proof (Qfloor_le (- x)) as Hlo'. pose proof (Qlt_floor (- x)) as Hhi'.
  rewrite inject_Z_plus in Hhi, Hhi'.
  change (inject_Z 1) with 1%Q in Hhi, Hhi'.
  set (f := Qfloor x) in *. set (g := Qfloor (- x)) in *.
  assert (Hg : g = - f \/ g = - f - 1).
  { assert (g <= - f).
    { rewrite Zle_Qle, inject_Z_opp. lra. }
    assert (- f - 2 < g).
    { rewrite Zlt_Qlt. unfold Z.sub. rewrite inject_Z_plus, inject_Z_opp.
      change (inject_Z (- (2))) with (- (2))%Q. lra. }
    lia. }
  destruct Hg as [-> | ->].
  - rewrite inject_Z_opp in *.
    destruct (Qcompare_spec (- x - - inject_Z f) (1 # 2)) as [E|E|E];
      destruct (Qcompare_spec (x - inject_Z f) (1 # 2)) as [E'|E'|E'];
      try lra.
    reflexivity.
  - unfold Z.sub in *. rewrite inject_Z_plus, inject_Z_opp in *.
    change (inject_Z (- (1))) with (- (1))%Q in *.
    destruct (Qcompare_spec (- x - (- inject_Z f + - (1))) (1 # 2)) as [E|E|E];
      destruct (Qcompare_spec (x - inject_Z f) (1 # 2)) as [E'|E'|E'];
      try lra; try lia.
    replace (- f + - (1)) with (- (f + 1)) by lia.
    rewrite Z.even_opp, Z.even_add. change (Z.even 1) with false.
    destruct (Z.even f); cbn; lia.
Qed.

Lemma ilog2_opp (q : Q) : ilog2 (- q) = ilog2 q.
Proof.
  destruct q as [n d]. unfold ilog2, Qopp, Qabs. cbn [Qnum Qden].
  rewrite Z.abs_opp. reflexivity.
Qed.

Lemma fl_opp (q : Q) : (fl (- q) == - fl q)%Q.
Proof.
  destruct (Qeq_dec q 0) as [E|N].
  - rewrite (fl_zero q E), (fl_zero (- q)); [reflexivity|].
    rewrite E. reflexivity.
  - assert (N' : ~ (- q == 0)%Q) by (intros H; apply N; lra).
    rewrite (fl_val _ N), (fl_val _ N'). unfold expo. rewrite ilog2_opp.
    set (e := Z.max (ilog2 q - 52) (-1074)).
    assert (E : (- q / pow2 e == - (q / pow2 e))%Q).
    { pose proof (pow2_pos e). field. lra. }
    rewrite (rne_comp _ _ E), rne_opp, inject_Z_opp. ring.
Qed.

Lemma fl_nonneg (q : Q) : (0 <= q)%Q -> (0 <= fl q)%Q.
Proof.
  intros H. destruct (Qeq_dec q 0) as [E|N].
  - rewrite (fl_zero q E). vm_compute. discriminate.
  - rewrite (fl_val _ N). pose proof (pow2_pos (expo q)) as P.
    apply Qmult_le_0_compat; [|lra].
    change 0%Q with (inject_Z 0). rewrite <- Zle_Qle.
    apply rne_ge. change (inject_Z 0) with 0%Q.
    assert (0 <= q / pow2 (expo q))%Q; [|lra].
    apply Qle_shift_div_l; lra.
Qed.

(** Rounding to binary64 is monotone. *)
Lemma fl_mono (q1 q2 : Q) : (q1 <= q2)%Q -> (fl q1 <= fl q2)%Q.
Proof.
  intros H. destruct (Qlt_le_dec 0 q1) as [H1|H1].
  - apply fl_mono_pos; assumption.
  - destruct (Qlt_le_dec q2 0) as [H2|H2].
    + assert (Hm : (fl (- q2) <= fl (- q1))%Q) by (apply fl_mono_pos; lra).
      rewrite !fl_opp in Hm. lra.
    + pose proof (fl_nonneg q2 H2).
      assert (Hm : (0 <= fl (- q1))%Q) by (apply fl_nonneg; lra).
      rewrite fl_opp in Hm. lra.
Qed.

Lemma fl_comp (q1 q2 : Q) : (q1 == q2)%Q -> fl q1 = fl q2.
Proof.
  intros E. apply Qc_is_canon.
  apply Qle_antisym; apply fl_mono; rewrite E; apply Qle_refl.
Qed.

Lemma pow10_pos (e : Z) : (0 < pow10 e)%Q.
Proof.
  unfold pow10. destruct (Z.leb_spec 0 e) as [H|H].
  - change 0%Q with (inject_Z 0). rewrite <- Zlt_Qlt. lia.
  - apply Qinv_lt_0_compat. change 0%Q with (inject_Z 0).
    rewrite <- Zlt_Qlt. lia.
Qed.

(** [round(x, n)] is monotone in [x]. *)
Lemma round_mono (x y : float) (n : Z) :
  (x <= y)%Q -> (round x n <= round y n)%Q.
Proof.
  intros H. unfold round. pose proof (pow10_pos n) as P.
  apply fl_mono. apply Qmult_le_compat_r;
    [|apply Qlt_le_weak, Qinv_lt_0_compat, P].
  rewrite <- Zle_Qle. apply rne_mono.
  apply Qmult_le_compat_r; [exact H|lra].
Qed.

(** ** The empty transfer list *)

(** C1: for the empty transfer list [classify_wallet] returns at once,
    whatever the subject address, with verdict NEUTRAL, confidence 0.30
    and entity inference "unknown". *)
Theorem classify_wallet_empty (wallet_address : string) (include_metrics : bool) :
  exists c,
    classify_wallet [] wallet_address include_metrics = Ok c
    /\ verdict c = VERDICT_NEUTRAL
    /\ verdict_str (verdict c) = "NEUTRAL"
    /\ confidence c = fl 0.30
    /\ entity_inference c = ENTITY_UNKNOWN
    /\ entity_str (entity_inference c) = "unknown"
    /\ address c = wallet_address.
Proof. eexists. split; [reflexivity|]. repeat split. Qed.

(** ** Malformed amounts *)

(** A transfer whose amount is spelled in hexadecimal. *)
Definition tx_hex_value : tx :=
  mk_tx (Some "0xb1") (Some "0xaa") (Some "0x10") (Some "1700000000").

(** C4: [wei_to_eth] does not return 0.0 on a malformed amount: the
    [except] clause names [Decimal.InvalidOperation], which does not exist,
    so the handler itself raises [AttributeError], and the metrics pass
    over a list holding such a record does not complete. *)
Theorem wei_to_eth_malformed_raises :
  behavior.wei_to_eth "0x10" = Raise AttributeError
  /\ behavior.analyze_transactions [tx_hex_value] (Some "0xaa")
     = Raise AttributeError
  /\ _compute_intelligence_metrics [tx_hex_value] "0xaa"
     = Raise AttributeError
  /\ classify_wallet [tx_hex_value] "0xaa" true = Raise AttributeError.
Proof. repeat split; vm_compute; reflexivity. Qed.

(** ** What the two loops compute *)

(** The amount of a record, as both loops read it. *)
Definition tx_eth (t : tx) : result float :=
  behavior.wei_to_eth (str_or (tx_value t) "0").

(** The amount in ETH of a record whose amount converts to a finite
    float (0 stands in for the others). *)
Definition eth (t : tx) : float :=
  match tx_eth t with
  | Ok v => v
  | _ => fl 0
  end.

(** A record whose amount converts to a finite float. *)
Definition converts (t : tx) : Prop := tx_eth t = Ok (eth t).

(** A record whose amount makes [wei_to_eth] raise. *)
Definition malformed (t : tx) : Prop := tx_eth t = Raise AttributeError.

(** Whatever is raised while an amount is converted, the [except] clause
    turns it into [AttributeError]. *)
Lemma wei_to_eth_raises (s : string) (e : exn) :
  behavior.wei_to_eth s = Raise e -> e = AttributeError.
Proof.
  unfold behavior.wei_to_eth, try_except.
  destruct (_ ≫= _) as [v|e'|]; [discriminate| |discriminate].
  cbn. congruence.
Qed.

Lemma tx_eth_Ok (t : tx) (v : float) : tx_eth t = Ok v -> v = eth t.
Proof. unfold eth. by intros ->. Qed.

Lemma converts_not_malformed (t : tx) : converts t -> ~ malformed t.
Proof. unfold converts, malformed. congruence. Qed.

Lemma finite_Ok (x y : float) : finite x = Ok y -> y = x.
Proof. unfold finite. destruct (overflows x); congruence. Qed.

Lemma finite_cases (x : float) :
  finite x = if overflows x then Unsupported else Ok x.
Proof. reflexivity. Qed.

(** The timestamp of a record, when it has one that [int] accepts. *)
Definition tx_ts (t : tx) : option Z :=
  match tx_timeStamp t with
  | Some ts =>
      match int_of_str ts with
      | Ok n => Some n
      | _ => None
      end
  | None => None
  end.

(** A record whose timestamp, if any, is ASCII text. *)
Definition ts_supported (t : tx) : bool :=
  match tx_timeStamp t with
  | Some ts => ascii_only ts
  | None => true
  end.

Lemma int_of_str_cases (s : string) :
  (exists n, int_of_str s = Ok n)
  \/ int_of_str s = Raise ValueError
  \/ (int_of_str s = Unsupported /\ ascii_only s = false).
Proof.
  unfold int_of_str. destruct (ascii_only s); cbn [negb]; [|by right; right].
  destruct (match strip is_blank s with
            | String "-"%char s' => (true, s')
            | String "+"%char s' => (false, s')
            | s' => (false, s')
            end) as [negative digits].
  destruct (parse_grouped 0 0 false digits) as [[n count]|];
    [|by right; left].
  destruct (INT_MAX_STR_DIGITS <? count); [by right; left|].
  left. eexists. reflexivity.
Qed.

Lemma int_of_str_not_ascii (s : string) :
  ascii_only s = false -> int_of_str s = Unsupported.
Proof. intros H. unfold int_of_str. by rewrite H. Qed.

Lemma body_timestamps (t : tx) (l : list Z) :
  match tx_timeStamp t with
  | Some ts =>
      if str_truthy ts then
        try_except (n ← int_of_str ts; Ok (l ++ [n]))
                   (Ok [TypeError; ValueError]) (Ok l)
      else Ok l
  | None => Ok l
  end = if ts_supported t then Ok (l ++ option_list (tx_ts t))
        else Unsupported.
Proof.
  unfold tx_ts, ts_supported.
  destruct (tx_timeStamp t) as [ts|]; [|by rewrite app_nil_r].
  destruct ts as [|c ts'].
  - cbn. by rewrite app_nil_r.
  - cbn [str_truthy]. set (ts := String c ts').
    destruct (ascii_only ts) eqn:A;
      [|by rewrite (int_of_str_not_ascii _ A)].
    destruct (int_of_str_cases ts) as [[n E]|[E|[E A']]];
      [| |congruence]; rewrite E; cbn; [reflexivity|].
    by rewrite app_nil_r.
Qed.

Lemma loop_timestamp (t : tx) :
  try_except
    (match tx_timeStamp t with
     | Some ts => n ← int_of_str ts; Ok (Some n)
     | None => Ok None
     end)
    (Ok [TypeError; ValueError]) (Ok None)
  = if ts_supported t then Ok (tx_ts t) else Unsupported.
Proof.
  unfold tx_ts, ts_supported.
  destruct (tx_timeStamp t) as [ts|]; [|reflexivity].
  destruct (ascii_only ts) eqn:A;
    [|by rewrite (int_of_str_not_ascii _ A)].
  destruct (int_of_str_cases ts) as [[n E]|[E|[E A']]];
    [| |congruence]; rewrite E; reflexivity.
Qed.

(** Direction of a record relative to the wallet, as [analyze_transactions]
    decides it. *)
Definition from_l (t : tx) : string := lower (str_or (tx_from t) "").
Definition to_l (t : tx) : string := lower (str_or (tx_to t) "").

Definition outbound (wallet_address : option string) (t : tx) : bool :=
  match behavior.wallet_truthy wallet_address with
  | Some w => bool_decide (from_l t = lower w)
  | None => true
  end.

Definition inbound (wallet_address : option string) (t : tx) : bool :=
  match behavior.wallet_truthy wallet_address with
  | Some w => bool_decide (to_l t = lower w)
  | None => false
  end.

(** The counterparties one record contributes. *)
Definition tx_counterparties (wallet_address : option string) (t : tx)
  : gset string :=
  match behavior.wallet_truthy wallet_address with
  | Some w =>
      (if bool_decide (from_l t = lower w)
       then behavior.add_truthy (to_l t) ∅ else ∅)
      ∪ (if bool_decide (to_l t = lower w)
         then behavior.add_truthy (from_l t) ∅ else ∅)
  | None => behavior.add_truthy (to_l t) (behavior.add_truthy (from_l t) ∅)
  end.

(** One iteration of the loop of [analyze_transactions] on a record whose
    amount converts, when the two totals stay finite. *)
Definition analyze_step (wallet_address : option string) (a : behavior.acc)
    (t : tx) : behavior.acc :=
  behavior.mk_acc
    (if inbound wallet_address t
     then fadd (behavior.acc_total_in_eth a) (eth t)
     else behavior.acc_total_in_eth a)
    (if outbound wallet_address t
     then fadd (behavior.acc_total_out_eth a) (eth t)
     else behavior.acc_total_out_eth a)
    (behavior.acc_counterparties a ∪ tx_counterparties wallet_address t)
    (if fleb (fl 10.0) (eth t)
     then behavior.acc_large_transfers a + 1
     else behavior.acc_large_transfers a)
    (behavior.acc_timestamps a ++ option_list (tx_ts t)).

(** Whether the totals of that iteration stay finite. *)
Definition step_finite (wallet_address : option string) (a : behavior.acc)
    (t : tx) : bool :=
  negb (outbound wallet_address t
        && overflows (fadd (behavior.acc_total_out_eth a) (eth t)))
  && negb (inbound wallet_address t
           && overflows (fadd (behavior.acc_total_in_eth a) (eth t))).

Lemma add_truthy_union a s : behavior.add_truthy a s = s ∪ behavior.add_truthy a ∅.
Proof.
  unfold behavior.add_truthy. destruct (str_truthy a); set_solver.
Qed.

(** The three outcomes of one iteration of the loop of
    [analyze_transactions]. *)
Lemma body_cases w a t :
  behavior.body w a t
  = match tx_eth t with
    | Ok _ =>
        if ts_supported t && step_finite w a t
        then Ok (analyze_step w a t) else Unsupported
    | Raise _ => Raise AttributeError
    | Unsupported => Unsupported
    end.
Proof.
  unfold behavior.body. fold (tx_eth t).
  destruct (tx_eth t) as [v|e|] eqn:Ev; cbn [mbind result_bind];
    [|by rewrite (wei_to_eth_raises _ _ Ev)|reflexivity].
  rewrite body_timestamps. rewrite (tx_eth_Ok _ _ Ev).
  destruct (ts_supported t); cbn [mbind result_bind andb]; [|reflexivity].
  unfold analyze_step, step_finite, inbound, outbound, tx_counterparties.
  fold (from_l t) (to_l t). rewrite !finite_cases.
  destruct (behavior.wallet_truthy w) as [w'|].
  - destruct (bool_decide (from_l t = lower w'));
      destruct (bool_decide (to_l t = lower w'));
      cbn [andb negb mbind result_bind];
      repeat match goal with
        | |- context [overflows ?x] => destruct (overflows x)
        end;
      cbn [andb negb mbind result_bind]; try exact eq_refl;
      do 2 f_equal;
      rewrite ?(add_truthy_union _ (behavior.acc_counterparties a)),
              ?(add_truthy_union _ (_ ∪ _)); set_solver.
  - cbn [andb negb]. destruct (overflows _); cbn [andb negb mbind result_bind];
      [reflexivity|].
    do 2 f_equal.
    rewrite (add_truthy_union (to_l t)),
            (add_truthy_union (from_l t) (behavior.acc_counterparties a)),
            (add_truthy_union (to_l t) (behavior.add_truthy _ ∅)).
    set_solver.
Qed.

Lemma body_Ok w a t a' :
  behavior.body w a t = Ok a' -> converts t /\ a' = analyze_step w a t.
Proof.
  rewrite body_cases. unfold converts.
  destruct (tx_eth t) as [v|e|] eqn:Ev; try discriminate.
  destruct (_ && _); [|discriminate]. intros [= <-].
  split; [|reflexivity]. by rewrite (tx_eth_Ok _ _ Ev) at 1.
Qed.

Lemma body_Raise w a t e :
  behavior.body w a t = Raise e -> e = AttributeError /\ malformed t.
Proof.
  rewrite body_cases. unfold malformed.
  destruct (tx_eth t) as [v|e'|] eqn:Ev; try discriminate.
  - destruct (_ && _); discriminate.
  - intros [= <-]. split; [reflexivity|].
    by rewrite (wei_to_eth_raises _ _ Ev).
Qed.

(** A loop that returns is the fold of its steps, and each record
    satisfies what a returning iteration implies. *)
Lemma for_each_Ok {S} (body : S -> tx -> result S) (step : S -> tx -> S)
    (P : tx -> Prop) (l : list tx) (s s' : S) :
  (forall s t s', body s t = Ok s' -> P t /\ s' = step s t) ->
  for_each body l s = Ok s' ->
  Forall P l /\ s' = fold_left step l s.
Proof.
  intros Hb. revert s. induction l as [|t l IH]; intros s; cbn [for_each].
  - intros [= <-]. split; [constructor|reflexivity].
  - destruct (body s t) as [s1| |] eqn:E; cbn [mbind result_bind];
      try discriminate.
    intros H. apply Hb in E as [Ht ->]. apply IH in H as [Hl ->].
    split; [by constructor|reflexivity].
Qed.

(** A loop that raises does so on one of its records. *)
Lemma for_each_Raise {S} (body : S -> tx -> result S) (Q : tx -> Prop)
    (l : list tx) (s : S) (e : exn) :
  (forall s t e, body s t = Raise e -> e = AttributeError /\ Q t) ->
  for_each body l s = Raise e ->
  e = AttributeError /\ Exists Q l.
Proof.
  intros Hb. revert s. induction l as [|t l IH]; intros s; cbn [for_each].
  - discriminate.
  - destruct (body s t) as [s1|e1|] eqn:E; cbn [mbind result_bind];
      try discriminate.
    + intros H. apply IH in H as [-> H]. split; [reflexivity|].
      by apply Exists_cons_tl.
    + intros [= <-]. apply Hb in E as [-> Ht]. split; [reflexivity|].
      by apply Exists_cons_hd.
Qed.

(** One iteration of the loop of [_compute_intelligence_metrics] on a
    record whose amount converts, when the spike total stays finite. *)
Definition loop_step (wallet_lower : string) (recent_cutoff_ts : Z)
    (s : loop_state) (t : tx) : loop_state :=
  mk_loop_state
    (match tx_ts t with
     | Some n =>
         if recent_cutoff_ts <=? n
         then st_recent_tx_count s + 1 else st_recent_tx_count s
     | None => st_recent_tx_count s
     end)
    (if fleb SPIKE_ETH (eth t)
     then st_spike_count s + 1 else st_spike_count s)
    (if fleb SPIKE_ETH (eth t)
     then fadd (st_spike_total_eth s) (eth t) else st_spike_total_eth s)
    (if str_truthy wallet_lower && bool_decide (to_l t = wallet_lower)
     then st_in_values s ++ [eth t] else st_in_values s)
    (if str_truthy wallet_lower && bool_decide (from_l t = wallet_lower)
     then st_out_values s ++ [eth t] else st_out_values s)
    (st_tx_timestamps s ++ option_list (tx_ts t)).

Definition loop_finite (s : loop_state) (t : tx) : bool :=
  negb (fleb SPIKE_ETH (eth t)
        && overflows (fadd (st_spike_total_eth s) (eth t))).

Lemma loop_body_cases wl c s t :
  loop_body wl c s t
  = match tx_eth t with
    | Ok _ =>
        if ts_supported t && loop_finite s t
        then Ok (loop_step wl c s t) else Unsupported
    | Raise _ => Raise AttributeError
    | Unsupported => Unsupported
    end.
Proof.
  unfold loop_body. fold (tx_eth t).
  destruct (tx_eth t) as [v|e|] eqn:Ev; cbn [mbind result_bind];
    [|by rewrite (wei_to_eth_raises _ _ Ev)|reflexivity].
  rewrite loop_timestamp. rewrite (tx_eth_Ok _ _ Ev).
  destruct (ts_supported t); cbn [mbind result_bind andb]; [|reflexivity].
  unfold loop_step, loop_finite. fold (from_l t) (to_l t).
  rewrite finite_cases.
  destruct (tx_ts t) as [n|]; [destruct (c <=? n)|];
    destruct (fleb SPIKE_ETH (eth t)); cbn [andb negb mbind result_bind];
    try destruct (overflows _); cbn [andb negb mbind result_bind];
    try exact eq_refl;
    destruct (str_truthy wl);
    try destruct (bool_decide (from_l t = wl));
    try destruct (bool_decide (to_l t = wl));
    cbn; rewrite ?app_nil_r; reflexivity.
Qed.

Lemma loop_body_Ok wl c s t s' :
  loop_body wl c s t = Ok s' -> converts t /\ s' = loop_step wl c s t.
Proof.
  rewrite loop_body_cases. unfold converts.
  destruct (tx_eth t) as [v|e|] eqn:Ev; try discriminate.
  destruct (_ && _); [|discriminate]. intros [= <-].
  split; [|reflexivity]. by rewrite (tx_eth_Ok _ _ Ev) at 1.
Qed.

Lemma loop_body_Raise wl c s t e :
  loop_body wl c s t = Raise e -> e = AttributeError /\ malformed t.
Proof.
  rewrite loop_body_cases. unfold malformed.
  destruct (tx_eth t) as [v|e'|] eqn:Ev; try discriminate.
  - destruct (_ && _); discriminate.
  - intros [= <-]. split; [reflexivity|].
    by rewrite (wei_to_eth_raises _ _ Ev).
Qed.

(** The base aggregates over a list whose amounts all convert and whose
    totals stay finite. *)
Definition analyze_pure (transactions : list tx)
    (wallet_address : option string) : behavior.metrics :=
  behavior.finish transactions
    (fold_left (analyze_step wallet_address) transactions behavior.acc0).

Lemma analyze_transactions_Ok transactions wallet_address base :
  behavior.analyze_transactions transactions wallet_address = Ok base ->
  Forall converts transactions
  /\ base = analyze_pure transactions wallet_address.
Proof.
  unfold behavior.analyze_transactions.
  destruct (for_each _ _ _) as [a| |] eqn:E; cbn [mbind result_bind];
    try discriminate.
  intros [= <-].
  apply (for_each_Ok _ (analyze_step wallet_address) converts) in E
    as [H ->]; [by split|].
  intros s t s'. apply body_Ok.
Qed.

Lemma analyze_transactions_Raise transactions wallet_address e :
  behavior.analyze_transactions transactions wallet_address = Raise e ->
  e = AttributeError /\ Exists malformed transactions.
Proof.
  unfold behavior.analyze_transactions.
  destruct (for_each _ _ _) as [a|e'|] eqn:E; cbn [mbind result_bind];
    try discriminate.
  intros [= <-]. apply (for_each_Raise _ malformed) in E; [exact E|].
  intros s t e0. apply body_Raise.
Qed.

(** The number of days of [_seconds_to_days] when it returns. *)
Definition days_of (seconds : Z) : float :=
  if negb (seconds =? 0) then int_quotient seconds (24 * 3600) else fl 0.0.

Lemma seconds_to_days_cases (seconds : Z) :
  _seconds_to_days seconds
  = if overflows (days_of seconds) then Raise OverflowError
    else Ok (days_of seconds).
Proof.
  unfold _seconds_to_days, days_of, int_truediv.
  destruct (seconds =? 0); cbn [negb]; [|reflexivity].
  assert (E : overflows (fl 0.0) = false) by (vm_compute; reflexivity).
  by rewrite E.
Qed.

(** The span in seconds between the first and the last timestamp. *)
Definition span_seconds (base : behavior.metrics) : Z :=
  if int_truthy (behavior.first_seen base)
     && int_truthy (behavior.last_seen base)
  then default 0 (behavior.last_seen base)
       - default 0 (behavior.first_seen base)
  else 0.

(** The bag [_compute_intelligence_metrics] builds from the base
    aggregates and the final state of its loop, when it returns. *)
Definition metrics_of (base : behavior.metrics) (s : loop_state) : metrics :=
  let total_in := behavior.total_in_eth base in
  let total_out := behavior.total_out_eth base in
  let net_eth := fsub total_in total_out in
  let total_txs := behavior.total_txs base in
  let num_counterparties := behavior.unique_counterparties base in
  let large_transfers_count := behavior.large_transfers_count base in
  let first_ts := behavior.first_seen base in
  let last_ts := behavior.last_seen base in
  let span_days := days_of (span_seconds base) in
  let tx_frequency :=
    if fleb TX_FREQ_MIN_DAYS span_days
    then fdiv (of_int total_txs) span_days
    else fl 0.0 in
  let inflow_outflow_ratio :=
    if fltb (fl 0) total_out then fdiv total_in total_out
    else if fnonzero total_in then fmul total_in (fl 10.0) else fl 0 in
  let outflow_inflow_ratio :=
    if fltb (fl 0) total_in then fdiv total_out total_in
    else if fnonzero total_out then fmul total_out (fl 10.0) else fl 0 in
  let out_values := st_out_values s in
  let out_values_sorted :=
    match out_values with
    | [] => []
    | _ => sorted out_values
    end in
  let median_out :=
    default (fl 0.0)
            (out_values_sorted !! (length out_values_sorted / 2)%nat) in
  let staggered_exits :=
    (5 <=? len out_values) && fltb median_out LARGE_TRANSFER_ETH
    && fltb NET_OUTFLOW_MIN_ETH total_out in
  let hour_counts := fold_left count_hour (st_tx_timestamps s) ∅ in
  let max_same_hour := default 0 (py_max (dict_values hour_counts)) in
  let repeated_timing := TIMING_MIN_TXS_FOR_PATTERN <=? max_same_hour in
  let total_flow_eth := fadd total_in total_out in
  let historically_large := fleb WHALE_HISTORICAL_ETH total_flow_eth in
  let dormant_candidate :=
    (RECENCY_MIN_HISTORICAL_TXS <=? total_txs)
    && (st_recent_tx_count s <=? RECENCY_MAX_TXS_DORMANT)
    && historically_large in
  {| total_in_eth := total_in;
     total_out_eth := total_out;
     net_eth := net_eth;
     inflow_outflow_ratio :=
       if fltb (fl 0) total_out
       then Some (round inflow_outflow_ratio 4) else None;
     outflow_inflow_ratio :=
       if fltb (fl 0) total_in
       then Some (round outflow_inflow_ratio 4) else None;
     total_txs := total_txs;
     span_days := round span_days 2;
     tx_frequency :=
       if fnonzero tx_frequency then round tx_frequency 4 else fl 0.0;
     unique_counterparties := num_counterparties;
     large_transfers_count := large_transfers_count;
     spike_count := st_spike_count s;
     spike_total_eth := round (st_spike_total_eth s) 4;
     recent_tx_count := st_recent_tx_count s;
     first_seen := first_ts;
     last_seen := last_ts;
     staggered_exits := staggered_exits;
     repeated_timing := repeated_timing;
     total_flow_eth := round total_flow_eth 4;
     historically_large := historically_large;
     dormant_candidate := dormant_candidate;
     num_inflows := len (st_in_values s);
     num_outflows := len out_values |}.

(** Whether the two ratios of the bag are finite. *)
Definition ratios_finite (base : behavior.metrics) : bool :=
  let total_in := behavior.total_in_eth base in
  let total_out := behavior.total_out_eth base in
  negb (fltb (fl 0) total_out && overflows (fdiv total_in total_out))
  && negb (fltb (fl 0) total_in && overflows (fdiv total_out total_in)).

(** [_compute_intelligence_metrics] after the base aggregates: the
    checks in the order in which the code computes. *)
Lemma compute_metrics_unfold transactions wallet_address :
  _compute_intelligence_metrics transactions wallet_address
  = base ← behavior.analyze_transactions transactions (Some wallet_address);
    if overflows (fsub (behavior.total_in_eth base)
                       (behavior.total_out_eth base))
    then Unsupported
    else if overflows (days_of (span_seconds base))
    then Raise OverflowError
    else if negb (ratios_finite base) then Unsupported
    else
      s ← for_each (loop_body (lower wallet_address) (recent_cutoff base))
                   transactions loop_state0;
      if overflows (fadd (behavior.total_in_eth base)
                         (behavior.total_out_eth base))
      then Unsupported
      else Ok (metrics_of base s).
Proof.
  unfold _compute_intelligence_metrics.
  destruct (behavior.analyze_transactions _ _) as [base| |];
    cbn [mbind result_bind]; try reflexivity.
  unfold ratios_finite. cbv zeta. rewrite !finite_cases.
  destruct (overflows (fsub _ _)) eqn:E1; cbn [mbind result_bind negb andb];
    [reflexivity|].
  fold (span_seconds base). rewrite seconds_to_days_cases.
  destruct (overflows (days_of _)) eqn:E2; cbn [mbind result_bind];
    [reflexivity|].
  destruct (fltb (fl 0) (behavior.total_out_eth base)) eqn:E3;
    destruct (fltb (fl 0) (behavior.total_in_eth base)) eqn:E4;
    rewrite ?finite_cases;
    repeat match goal with
      | |- context [overflows (fdiv ?x ?y)] =>
          destruct (overflows (fdiv x y)) eqn:?
      end;
    cbn [mbind result_bind negb andb]; try exact eq_refl;
    destruct (for_each _ _ _) as [s| |]; cbn [mbind result_bind];
    try exact eq_refl;
    destruct (overflows (fadd _ _)) eqn:E5; cbn [mbind result_bind negb andb];
    try exact eq_refl;
    unfold metrics_of; cbv zeta; rewrite ?E3, ?E4; exact eq_refl.
Qed.

(** The bag over a list whose amounts all convert, when every float in
    it stays finite. *)
Definition metrics_pure (transactions : list tx) (wallet_address : string)
  : metrics :=
  let base := analyze_pure transactions (Some wallet_address) in
  metrics_of base
    (fold_left (loop_step (lower wallet_address) (recent_cutoff base))
               transactions loop_state0).

(** The span of days overflows: [_seconds_to_days] raises. *)
Definition span_overflows (transactions : list tx) (wallet_address : string)
  : Prop :=
  overflows
    (days_of (span_seconds (analyze_pure transactions (Some wallet_address))))
  = true.

Lemma compute_metrics_Ok transactions wallet_address m :
  _compute_intelligence_metrics transactions wallet_address = Ok m ->
  Forall converts transactions
  /\ m = metrics_pure transactions wallet_address.
Proof.
  rewrite compute_metrics_unfold.
  destruct (behavior.analyze_transactions _ _) as [base| |] eqn:Eb;
    cbn [mbind result_bind]; try discriminate.
  apply analyze_transactions_Ok in Eb as [Hc ->].
  destruct (overflows (fsub _ _)); [discriminate|].
  destruct (overflows (days_of _)); [discriminate|].
  destruct (negb _); [discriminate|].
  destruct (for_each _ _ _) as [s| |] eqn:Es; cbn [mbind result_bind];
    try discriminate.
  destruct (overflows (fadd _ _)); [discriminate|]. intros [= <-].
  split; [exact Hc|]. unfold metrics_pure. cbv zeta. f_equal.
  apply (for_each_Ok _
           (loop_step (lower wallet_address)
              (recent_cutoff (analyze_pure transactions (Some wallet_address))))
           converts) in Es as [_ ->]; [reflexivity|].
  intros s0 t s'. apply loop_body_Ok.
Qed.

(** The metrics pass raises in two cases only: [AttributeError] when an
    amount is malformed, [OverflowError] when the time span in days is
    too large for a float. *)
Lemma compute_metrics_Raise transactions wallet_address e :
  _compute_intelligence_metrics transactions wallet_address = Raise e ->
  (e = AttributeError /\ Exists malformed transactions)
  \/ (e = OverflowError /\ Forall converts transactions
      /\ span_overflows transactions wallet_address).
Proof.
  rewrite compute_metrics_unfold.
  destruct (behavior.analyze_transactions _ _) as [base|e'|] eqn:Eb;
    cbn [mbind result_bind]; try discriminate.
  - apply analyze_transactions_Ok in Eb as [Hc ->].
    destruct (overflows (fsub _ _)); [discriminate|].
    destruct (overflows (days_of _)) eqn:Ed.
    { intros [= <-]. right. by repeat split. }
    destruct (negb _); [discriminate|].
    destruct (for_each _ _ _) as [s|e'|] eqn:Es; cbn [mbind result_bind];
      try discriminate.
    + destruct (overflows (fadd _ _)); discriminate.
    + intros [= <-]. left.
      apply (for_each_Raise _ malformed) in Es; [exact Es|].
      intros s0 t e0. apply loop_body_Raise.
  - intros [= <-]. left. by apply analyze_transactions_Raise in Eb.
Qed.

(** The result built from a bag. *)
Definition classification_of (wallet_address : string)
    (include_metrics : bool) (m : metrics) : classification :=
  let '(verdict, entity_inference, confidence, behavior_summary) :=
    _pick_verdict_and_confidence m in
  {| address := wallet_address;
     verdict := verdict;
     confidence := confidence;
     entity_inference := entity_inference;
     entity_type := entity_inference;
     behavior_summary := behavior_summary;
     metrics_used :=
       if include_metrics then Bag (round_floats m) else KeyAbsent |}.

(** On a non-empty list [classify_wallet] builds its result from the bag
    of the metrics pass, and has no outcome of its own. *)
Lemma classify_wallet_nonempty transactions wallet_address include_metrics :
  transactions <> [] ->
  classify_wallet transactions wallet_address include_metrics
  = match _compute_intelligence_metrics transactions wallet_address with
    | Ok m => Ok (classification_of wallet_address include_metrics m)
    | Raise e => Raise e
    | Unsupported => Unsupported
    end.
Proof.
  intros Hne. unfold classify_wallet.
  destruct transactions as [|t l]; [contradiction|].
  destruct (_compute_intelligence_metrics _ _); reflexivity.
Qed.

Lemma classify_wallet_Ok transactions wallet_address include_metrics c :
  transactions <> [] ->
  classify_wallet transactions wallet_address include_metrics = Ok c ->
  _compute_intelligence_metrics transactions wallet_address
  = Ok (metrics_pure transactions wallet_address)
  /\ Forall converts transactions
  /\ c = classification_of wallet_address include_metrics
           (metrics_pure transactions wallet_address).
Proof.
  intros Hne. rewrite (classify_wallet_nonempty _ _ _ Hne).
  destruct (_compute_intelligence_metrics _ _) as [m| |] eqn:E;
    try discriminate.
  intros [= <-]. apply compute_metrics_Ok in E as [Hc ->]. by repeat split.
Qed.

Lemma compute_metrics_Ok_span transactions wallet_address m :
  _compute_intelligence_metrics transactions wallet_address = Ok m ->
  ~ span_overflows transactions wallet_address.
Proof.
  rewrite compute_metrics_unfold. unfold span_overflows.
  destruct (behavior.analyze_transactions _ _) as [base| |] eqn:Eb;
    cbn [mbind result_bind]; try discriminate.
  apply analyze_transactions_Ok in Eb as [Hc ->].
  destruct (overflows (fsub _ _)); [discriminate|].
  destruct (overflows (days_of _)); [discriminate|]. intros _. discriminate.
Qed.

(** ** Ratios with a zero denominator *)

(** The first accumulation signal: inflow/outflow ratio >= 1.5. *)
Definition accumulation_ratio_signal (m : metrics) : bool :=
  fleb INFLOW_OUTFLOW_RATIO_ACCUM (float_or_0 (inflow_outflow_ratio m)).

Lemma accumulation_ratio_signal_head :
  exists rest,
    SIGNALS_ACCUMULATION = (fl 0.30, accumulation_ratio_signal) :: rest.
Proof. eexists. reflexivity. Qed.

(** One inbound transfer of 1 ETH and nothing outbound. *)
Definition tx_one_inbound : tx :=
  mk_tx (Some "0xb1") (Some "0xaa") (Some "1000000000000000000") None.

Lemma one_inbound_metrics :
  exists m,
    _compute_intelligence_metrics [tx_one_inbound] "0xaa" = Ok m
    /\ total_out_eth m = fl 0
    /\ total_in_eth m = fl 1
    /\ inflow_outflow_ratio m = None
    /\ outflow_inflow_ratio m = Some (fl 0).
Proof.
  assert (H : exists m,
             _compute_intelligence_metrics [tx_one_inbound] "0xaa" = Ok m)
    by (vm_compute; eexists; reflexivity).
  destruct H as [m Hm]. exists m. split; [exact Hm|].
  vm_compute in Hm. injection Hm as <-. cbv [total_out_eth total_in_eth
    inflow_outflow_ratio outflow_inflow_ratio].
  split; [float_eq|]. split; [float_eq|]. split; [exact eq_refl|].
  f_equal; try float_eq.
Defined.

(** C5: with zero outbound and nonzero inbound value the bag does not
    report the synthetic ratio (inbound total x 10) that the code has
    just computed: it reports [None], the ratio signal of accumulation
    does not fire, and [outflow_inflow_ratio] is defined (it is 0.0). *)
Theorem synthetic_ratio_not_reported :
  exists m,
    _compute_intelligence_metrics [tx_one_inbound] "0xaa" = Ok m
    /\ total_out_eth m = fl 0
    /\ total_in_eth m = fl 1
    /\ inflow_outflow_ratio m <> Some (fmul (total_in_eth m) (fl 10.0))
    /\ inflow_outflow_ratio m = None
    /\ accumulation_ratio_signal m = false
    /\ outflow_inflow_ratio m = Some (fl 0.0)
    /\ outflow_inflow_ratio m <> None.
Proof.
  destruct one_inbound_metrics as (m & Hm & Hout & Hin & Hio & Hoi).
  exists m. unfold accumulation_ratio_signal. rewrite Hio, Hoi.
  split; [exact Hm|]. split; [exact Hout|]. split; [exact Hin|].
  split; [discriminate|]. split; [exact eq_refl|].
  split; [vm_compute; exact eq_refl|]. split; [exact eq_refl|discriminate].
Qed.

(** ** Scores *)

(** The weights of a table, and the signals of the table that fire. *)
Definition weights (signals : list signal) : list float := fst <$> signals.

Definition fires (m : metrics) (signals : list signal) : list bool :=
  (fun s => snd s m) <$> signals.

Fixpoint fired (ws : list float) (bs : list bool) : list float :=
  match ws, bs with
  | w :: ws', b :: bs' => if b then w :: fired ws' bs' else fired ws' bs'
  | _, _ => []
  end.

(** The normalized score of a table whose signals fire as [bs] says. *)
Definition norm_score (ws : list float) (bs : list bool) : float :=
  fmin (fl 1.0) (round (fdiv (fsum (fired ws bs)) (fsum ws)) 4).

Lemma score_signals_fired m signals :
  _score_signals m signals = fsum (fired (weights signals) (fires m signals)).
Proof.
  unfold _score_signals. f_equal.
  induction signals as [|[w p] l IH]; [reflexivity|].
  rewrite filter_cons. unfold weights, fires in *. cbn.
  destruct (p m) eqn:E; destruct (decide _) as [H|H]; cbn in H;
    try congruence; cbn; first [exact IH | f_equal; exact IH].
Qed.

Lemma compute_all_scores_eq m :
  _compute_all_scores m
  = [ (VERDICT_SMART_MONEY_ACCUMULATION,
       norm_score (weights SIGNALS_ACCUMULATION)
                  (fires m SIGNALS_ACCUMULATION));
      (VERDICT_STEALTH_DISTRIBUTION,
       norm_score (weights SIGNALS_DISTRIBUTION)
                  (fires m SIGNALS_DISTRIBUTION));
      (VERDICT_EXCHANGE_ROTATION,
       norm_score (weights SIGNALS_EXCHANGE_ROTATION)
                  (fires m SIGNALS_EXCHANGE_ROTATION));
      (VERDICT_WHALE_DORMANT,
       norm_score (weights SIGNALS_WHALE_DORMANT)
                  (fires m SIGNALS_WHALE_DORMANT)) ].
Proof.
  unfold _compute_all_scores, norm_score.
  rewrite <- !score_signals_fired. exact eq_refl.
Qed.

(** All lists of booleans of a given length. *)
Fixpoint bool_lists (n : nat) : list (list bool) :=
  match n with
  | O => [[]]
  | S n' => bs ← bool_lists n'; [true :: bs; false :: bs]
  end.

Lemma bool_lists_complete (bs : list bool) : bs ∈ bool_lists (length bs).
Proof.
  induction bs as [|b bs IH]; cbn; [by apply list_elem_of_singleton|].
  apply list_elem_of_bind. exists bs. split; [|exact IH].
  destruct b; set_solver.
Qed.

Lemma bool_lists_forallb (f : list bool -> bool) (n : nat) :
  forallb f (bool_lists n) = true ->
  forall bs, length bs = n -> f bs = true.
Proof.
  intros H bs <-. rewrite forallb_forall in H.
  apply H, list_elem_of_In, bool_lists_complete.
Qed.

Lemma fires_length m signals : length (fires m signals) = length signals.
Proof. unfold fires. by rewrite length_fmap. Qed.




(** *** The choice of the best verdict *)

(** Position in the insertion order of the score map. *)
Definition priority (v : verdict_t) : nat :=
  match v with
  | VERDICT_SMART_MONEY_ACCUMULATION => 0
  | VERDICT_STEALTH_DISTRIBUTION => 1
  | VERDICT_EXCHANGE_ROTATION => 2
  | VERDICT_WHALE_DORMANT => 3
  | VERDICT_NEUTRAL => 4
  end.

#[local] Opaque fl.

(** On a map with the four keys in order, [max_key] returns a key whose
    score is maximal and strictly above the score of every earlier key. *)
Lemma max_key_spec (a b c d : float) :
  let scores :=
    [ (VERDICT_SMART_MONEY_ACCUMULATION, a);
      (VERDICT_STEALTH_DISTRIBUTION, b);
      (VERDICT_EXCHANGE_ROTATION, c);
      (VERDICT_WHALE_DORMANT, d) ] in
  let k := max_key scores in
  k <> VERDICT_NEUTRAL
  /\ (forall v, v <> VERDICT_NEUTRAL ->
        (get_score scores v <= get_score scores k)%Q)
  /\ (forall v, (priority v < priority k)%nat ->
        (get_score scores v < get_score scores k)%Q).
Proof.
  intros scores k. subst scores k. unfold max_key.
  cbn [fold_left snd fst].
  destruct (fltb a b) eqn:Eab; cbn [snd fst];
    destruct (fltb _ c) eqn:Ec; cbn [snd fst];
    destruct (fltb _ d) eqn:Ed; cbn [snd fst];
    repeat match goal with
      | H : fltb _ _ = true |- _ => apply fltb_lt in H
      | H : fltb _ _ = false |- _ => apply fltb_ge in H
      end;
    (split; [discriminate|]);
    split; intros [] H; cbn in H |- *; try lia; try congruence;
    repeat case_bool_decide; try congruence; lra.
Qed.


(** Decision of a closed comparison of rationals by evaluation. *)
Ltac q_decide :=
  vm_compute; first [reflexivity | discriminate | intro; discriminate].

(** *** Confidence *)





Lemma neutral_confidence :
  round (fadd CONFIDENCE_MIN (fl 0.15)) 2 = fl 0.45.
Proof. float_eq. Qed.

(** *** The verdict *)

Definition picked_verdict (m : metrics) : verdict_t :=
  fst (fst (fst (_pick_verdict_and_confidence m))).

Definition picked_confidence (m : metrics) : float :=
  snd (fst (_pick_verdict_and_confidence m)).

Definition score_of (m : metrics) (v : verdict_t) : float :=
  get_score (_compute_all_scores m) v.


Lemma max_key_all_scores m :
  let k := max_key (_compute_all_scores m) in
  k <> VERDICT_NEUTRAL
  /\ (forall v, v <> VERDICT_NEUTRAL -> (score_of m v <= score_of m k)%Q)
  /\ (forall v, (priority v < priority k)%nat ->
        (score_of m v < score_of m k)%Q).
Proof.
  unfold score_of. rewrite compute_all_scores_eq. apply max_key_spec.
Qed.

Lemma picked_verdict_cases m :
  let k := max_key (_compute_all_scores m) in
  (fltb (score_of m k) (fl 0.30) = true
   /\ picked_verdict m = VERDICT_NEUTRAL
   /\ picked_confidence m = fl 0.45)
  \/ (fltb (score_of m k) (fl 0.30) = false /\ picked_verdict m = k).
Proof.
  unfold picked_verdict, picked_confidence, _pick_verdict_and_confidence,
    score_of.
  cbv zeta. cbn [fst snd].
  destruct (fltb _ (fl 0.30)).
  - left. split; [exact eq_refl|]. split; [exact eq_refl|].
    unfold _compute_confidence. apply neutral_confidence.
  - right. split; exact eq_refl.
Qed.



(** ** Scores, verdict and confidence of a classification *)

(** The two exceptions of [classify_wallet] on a non-empty list. *)
Definition raises_on (transactions : list tx) (wallet_address : string)
    (e : exn) : Prop :=
  (e = AttributeError /\ Exists malformed transactions)
  \/ (e = OverflowError /\ Forall converts transactions
      /\ span_overflows transactions wallet_address).








(** ** Ties *)

(** C9: the verdict picked is the earliest, in the order accumulation,
    distribution, exchange rotation, dormant whale, of those whose score
    is maximal, provided that score reaches 0.30. *)
Theorem tie_break_priority (m : metrics) (v : verdict_t) :
  v <> VERDICT_NEUTRAL ->
  (fl 0.30 <= score_of m v)%Q ->
  (forall v', v' <> VERDICT_NEUTRAL -> (score_of m v' <= score_of m v)%Q) ->
  (forall v', (priority v' < priority v)%nat ->
     (score_of m v' < score_of m v)%Q) ->
  picked_verdict m = v.
Proof.
  intros Hv Hfloor Hmax Hfirst.
  destruct (max_key_all_scores m) as (Hk & Hkmax & Hkfirst).
  set (k := max_key (_compute_all_scores m)) in *.
  assert (E : k = v).
  { destruct (Nat.lt_trichotomy (priority k) (priority v)) as [H|[H|H]].
    - specialize (Hfirst _ H). specialize (Hkmax _ Hv). lra.
    - destruct k, v; cbn in H; congruence.
    - specialize (Hkfirst _ H). specialize (Hmax _ Hk). lra. }
  destruct (picked_verdict_cases m) as [(Hlt & _)|(_ & Hp)].
  - fold k in Hlt. rewrite E in Hlt. apply fltb_lt in Hlt. lra.
  - fold k in Hp. congruence.
Qed.

(** Two inbound transfers of 30 ETH and thirteen outbound transfers of
    nothing to thirteen addresses: accumulation and exchange rotation
    both score 0.35. *)
Definition tie_transactions : list tx :=
  [ mk_tx (Some "0xb1") (Some "0xaa") (Some "30000000000000000000") None;
    mk_tx (Some "0xb2") (Some "0xaa") (Some "30000000000000000000") None ]
  ++ ((fun c => mk_tx (Some "0xaa") (Some c) (Some "0") None)
      <$> [ "0xc01"; "0xc02"; "0xc03"; "0xc04"; "0xc05"; "0xc06"; "0xc07";
            "0xc08"; "0xc09"; "0xc10"; "0xc11"; "0xc12"; "0xc13" ]).

Lemma tie_break_priority_witness :
  exists m,
    _compute_intelligence_metrics tie_transactions "0xaa" = Ok m
    /\ score_of m VERDICT_SMART_MONEY_ACCUMULATION = fl 0.35
    /\ score_of m VERDICT_EXCHANGE_ROTATION = fl 0.35
    /\ picked_verdict m = VERDICT_SMART_MONEY_ACCUMULATION.
Proof.
  exists (metrics_pure tie_transactions "0xaa").
  split.
  { assert (H : exists m,
               _compute_intelligence_metrics tie_transactions "0xaa" = Ok m)
      by (vm_compute; eexists; reflexivity).
    destruct H as [m Hm].
    by destruct (compute_metrics_Ok _ _ _ Hm) as [_ <-]. }
  split; [float_eq|]. split; [float_eq|].
  apply tie_break_priority.
  - discriminate.
  - q_decide.
  - intros [] H; try (destruct (H eq_refl)); q_decide.
  - intros v' H. cbn in H. lia.
Defined.

(** ** Data quality *)

Lemma fl_1 : (fl 1 == 1)%Q.
Proof. vm_compute. reflexivity. Qed.

(** C6: the data-quality component is not 0 at the floor of 10
    transactions but 1, and an eleventh transaction makes it drop to
    1/70: fewer transactions can give a higher data quality. *)
Theorem data_quality_at_floor :
  data_quality DATA_QUALITY_TXS_FLOOR = fl 1
  /\ data_quality DATA_QUALITY_TXS_FLOOR <> fl 0
  /\ data_quality 11 = int_quotient 1 70
  /\ (data_quality 11 < data_quality 10)%Q
  /\ (data_quality 40 < data_quality 5)%Q.
Proof.
  split; [float_eq|]. split; [|split; [float_eq|split; q_decide]].
  intros H. apply (f_equal this) in H. vm_compute in H. discriminate.
Qed.

(** ** Monotonicity of the accumulation score *)

Fixpoint list_leb (bs bs' : list bool) : bool :=
  match bs, bs' with
  | [], [] => true
  | b :: l, b' :: l' => implb b b' && list_leb l l'
  | _, _ => false
  end.

Definition mono_score (ws : list float) (bs : list bool) : bool :=
  forallb
    (fun bs' =>
       implb (list_leb bs bs') (fleb (norm_score ws bs) (norm_score ws bs')))
    (bool_lists (length ws)).

Lemma list_leb_length bs bs' : list_leb bs bs' = true -> length bs' = length bs.
Proof.
  revert bs'. induction bs as [|b l IH]; intros [|b' l'] H;
    cbn in H; try discriminate; [reflexivity|].
  apply andb_true_iff in H as [_ H]. cbn. f_equal. by apply IH.
Qed.

Lemma norm_score_mono (ws : list float) (bs bs' : list bool) :
  forallb (mono_score ws) (bool_lists (length ws)) = true ->
  length bs = length ws ->
  list_leb bs bs' = true ->
  (norm_score ws bs <= norm_score ws bs')%Q.
Proof.
  intros H Hl Hle.
  pose proof (bool_lists_forallb _ _ H bs Hl) as H1. unfold mono_score in H1.
  assert (Hl' : length bs' = length ws)
    by (rewrite <- Hl; by apply list_leb_length).
  pose proof (bool_lists_forallb _ _ H1 bs' Hl') as H2.
  cbv beta in H2. rewrite Hle in H2. cbn [implb] in H2. by apply fleb_le.
Qed.

Lemma score_of_accumulation m :
  score_of m VERDICT_SMART_MONEY_ACCUMULATION
  = norm_score (weights SIGNALS_ACCUMULATION) (fires m SIGNALS_ACCUMULATION).
Proof.
  unfold score_of. rewrite compute_all_scores_eq.
  cbn [get_score fst snd]. by rewrite bool_decide_eq_true_2.
Qed.

(** The inflow/outflow ratio of one bag is not above that of another,
    an undefined ratio reading as 0, as the signal reads it. *)
Definition ratio_le (r r' : option float) : Prop :=
  (float_or_0 r <= float_or_0 r')%Q.

(** [m'] is [m] with a total inbound value that is not smaller, and with
    the metrics derived from it (net value, inflow/outflow ratio) not
    smaller either; all other metrics are those of [m]. *)
Definition inbound_increased (m m' : metrics) : Prop :=
  (total_in_eth m <= total_in_eth m')%Q
  /\ (net_eth m <= net_eth m')%Q
  /\ ratio_le (inflow_outflow_ratio m) (inflow_outflow_ratio m')
  /\ total_out_eth m' = total_out_eth m
  /\ outflow_inflow_ratio m' = outflow_inflow_ratio m
  /\ total_txs m' = total_txs m
  /\ span_days m' = span_days m
  /\ tx_frequency m' = tx_frequency m
  /\ unique_counterparties m' = unique_counterparties m
  /\ large_transfers_count m' = large_transfers_count m
  /\ spike_count m' = spike_count m
  /\ spike_total_eth m' = spike_total_eth m
  /\ recent_tx_count m' = recent_tx_count m
  /\ first_seen m' = first_seen m
  /\ last_seen m' = last_seen m
  /\ staggered_exits m' = staggered_exits m
  /\ repeated_timing m' = repeated_timing m
  /\ total_flow_eth m' = total_flow_eth m
  /\ historically_large m' = historically_large m
  /\ dormant_candidate m' = dormant_candidate m
  /\ num_inflows m' = num_inflows m
  /\ num_outflows m' = num_outflows m.

Lemma fleb_mono_r (c x y : float) :
  (x <= y)%Q -> implb (fleb c x) (fleb c y) = true.
Proof.
  intros H. destruct (fleb c x) eqn:E; [|reflexivity]. cbn.
  apply fleb_le in E. apply fleb_le. lra.
Qed.

Lemma implb_andb_r (a b b' : bool) :
  implb b b' = true -> implb (a && b) (a && b') = true.
Proof. destruct a, b, b'; auto. Qed.

Lemma accumulation_fires_mono (m m' : metrics) :
  (total_in_eth m <= total_in_eth m')%Q ->
  (net_eth m <= net_eth m')%Q ->
  ratio_le (inflow_outflow_ratio m) (inflow_outflow_ratio m') ->
  unique_counterparties m' = unique_counterparties m ->
  large_transfers_count m' = large_transfers_count m ->
  num_inflows m' = num_inflows m ->
  list_leb (fires m SIGNALS_ACCUMULATION) (fires m' SIGNALS_ACCUMULATION)
  = true.
Proof.
  intros Hin Hnet Hr Hc Hl Hn. unfold ratio_le in Hr.
  cbn [fires SIGNALS_ACCUMULATION fmap list_fmap snd list_leb].
  rewrite Hc, Hl, Hn.
  rewrite (fleb_mono_r _ _ _ Hr), (fleb_mono_r _ _ _ Hnet),
    !(implb_andb_r _ _ _ (fleb_mono_r _ _ _ Hin)), implb_same.
  reflexivity.
Qed.

Lemma accumulation_score_mono (m m' : metrics) :
  list_leb (fires m SIGNALS_ACCUMULATION) (fires m' SIGNALS_ACCUMULATION)
  = true ->
  (score_of m VERDICT_SMART_MONEY_ACCUMULATION
   <= score_of m' VERDICT_SMART_MONEY_ACCUMULATION)%Q.
Proof.
  intros H. rewrite !score_of_accumulation.
  apply norm_score_mono; [vm_compute; reflexivity|apply fires_length|exact H].
Qed.

(** C8: a bag whose total inbound value is increased, together with the
    net value and the inflow/outflow ratio derived from it, all other
    metrics being kept, has an accumulation score that is not smaller. *)
Theorem accumulation_score_monotone (m m' : metrics) :
  inbound_increased m m' ->
  (score_of m VERDICT_SMART_MONEY_ACCUMULATION
   <= score_of m' VERDICT_SMART_MONEY_ACCUMULATION)%Q.
Proof.
  intros (Hin & Hnet & Hr & _ & _ & _ & _ & _ & Hc & Hl & H).
  apply accumulation_score_mono, accumulation_fires_mono; try assumption.
  apply H.
Qed.

(** The bag [m] with total inbound value [x], its net value and its
    inflow/outflow ratio derived from [x] as [_compute_intelligence_metrics]
    derives them. *)
Definition with_total_in (m : metrics) (x : float) : metrics :=
  {| total_in_eth := x;
     total_out_eth := total_out_eth m;
     net_eth := fsub x (total_out_eth m);
     inflow_outflow_ratio :=
       if fltb (fl 0) (total_out_eth m)
       then Some (round (fdiv x (total_out_eth m)) 4) else None;
     outflow_inflow_ratio := outflow_inflow_ratio m;
     total_txs := total_txs m;
     span_days := span_days m;
     tx_frequency := tx_frequency m;
     unique_counterparties := unique_counterparties m;
     large_transfers_count := large_transfers_count m;
     spike_count := spike_count m;
     spike_total_eth := spike_total_eth m;
     recent_tx_count := recent_tx_count m;
     first_seen := first_seen m;
     last_seen := last_seen m;
     staggered_exits := staggered_exits m;
     repeated_timing := repeated_timing m;
     total_flow_eth := total_flow_eth m;
     historically_large := historically_large m;
     dormant_candidate := dormant_candidate m;
     num_inflows := num_inflows m;
     num_outflows := num_outflows m |}.

Lemma fl_0 : (fl 0 == 0)%Q.
Proof. vm_compute. reflexivity. Qed.

Lemma float_or_0_Some (v : float) : (float_or_0 (Some v) == v)%Q.
Proof.
  unfold float_or_0, fnonzero. destruct (Qeq_bool v 0) eqn:E; cbn [negb].
  - apply Qeq_bool_iff in E. rewrite E. apply fl_0.
  - reflexivity.
Qed.

Lemma with_total_in_increased (m : metrics) (x x' : float) :
  (x <= x')%Q -> inbound_increased (with_total_in m x) (with_total_in m x').
Proof.
  intros H. unfold inbound_increased, with_total_in.
  cbn [total_in_eth total_out_eth net_eth inflow_outflow_ratio
       outflow_inflow_ratio total_txs span_days tx_frequency
       unique_counterparties large_transfers_count spike_count
       spike_total_eth recent_tx_count first_seen last_seen staggered_exits
       repeated_timing total_flow_eth historically_large dormant_candidate
       num_inflows num_outflows].
  split; [exact H|]. split; [apply fl_mono; lra|].
  split; [|repeat (split; [exact eq_refl|]); exact eq_refl].
  unfold ratio_le. destruct (fltb _ (total_out_eth m)) eqn:E;
    [|apply Qle_refl].
  apply fltb_lt in E. rewrite fl_0 in E. rewrite !float_or_0_Some.
  apply round_mono, fl_mono. apply Qmult_le_compat_r; [exact H|].
  apply Qlt_le_weak, Qinv_lt_0_compat, E.
Qed.

Lemma accumulation_score_monotone_witness :
  let m := metrics_pure [tx_one_inbound] "0xaa" in
  inbound_increased (with_total_in m (fl 1)) (with_total_in m (fl 60))
  /\ (score_of (with_total_in m (fl 1)) VERDICT_SMART_MONEY_ACCUMULATION
      <= score_of (with_total_in m (fl 60))
           VERDICT_SMART_MONEY_ACCUMULATION)%Q.
Proof.
  intros m.
  assert (H : inbound_increased (with_total_in m (fl 1))
                                (with_total_in m (fl 60))).
  { vm_compute. repeat split; try discriminate. }
  split; [exact H|]. apply accumulation_score_monotone, H.
Defined.

(** ** The loops as aggregates *)

Definition is_large (t : tx) : bool := fleb (fl 10.0) (eth t).
Definition is_spike (t : tx) : bool := fleb SPIKE_ETH (eth t).

(** The accumulators after the loop of [analyze_transactions], one
    aggregate each: two running sums, a union, a count and a list. *)
Lemma fold_analyze_step (w : option string) (l : list tx) (a : behavior.acc) :
  fold_left (analyze_step w) l a
  = behavior.mk_acc
      (fold_left fadd (eth <$> filter (fun t => inbound w t = true) l)
                 (behavior.acc_total_in_eth a))
      (fold_left fadd (eth <$> filter (fun t => outbound w t = true) l)
                 (behavior.acc_total_out_eth a))
      (behavior.acc_counterparties a ∪ ⋃ (tx_counterparties w <$> l))
      (behavior.acc_large_transfers a
       + len (filter (fun t => is_large t = true) l))
      (behavior.acc_timestamps a ++ omap tx_ts l).
Proof.
  revert a. induction l as [|t l IH]; intros a.
  - destruct a. cbn. unfold len. cbn.
    f_equal; [set_solver|lia|by rewrite app_nil_r].
  - cbn [fold_left]. rewrite IH. unfold analyze_step at 1 2 3 4 5.
    cbn [behavior.acc_total_in_eth behavior.acc_total_out_eth
         behavior.acc_counterparties behavior.acc_large_transfers
         behavior.acc_timestamps].
    rewrite !filter_cons. fold (is_large t). unfold len.
    f_equal.
    + destruct (inbound w t); destruct (decide _); try congruence;
        reflexivity.
    + destruct (outbound w t); destruct (decide _); try congruence;
        reflexivity.
    + cbn. set_solver.
    + destruct (is_large t); destruct (decide _); try congruence;
        cbn [length]; lia.
    + rewrite <- app_assoc. f_equal. cbn. destruct (tx_ts t); reflexivity.
Qed.

Definition to_wallet (wl : string) (t : tx) : bool :=
  str_truthy wl && bool_decide (to_l t = wl).

Definition from_wallet (wl : string) (t : tx) : bool :=
  str_truthy wl && bool_decide (from_l t = wl).

(** The accumulators after the loop of [_compute_intelligence_metrics]. *)
Lemma fold_loop_step (wl : string) (c : Z) (l : list tx) (s : loop_state) :
  fold_left (loop_step wl c) l s
  = mk_loop_state
      (st_recent_tx_count s
       + len (filter (fun n => c <= n) (omap tx_ts l)))
      (st_spike_count s + len (filter (fun t => is_spike t = true) l))
      (fold_left fadd (eth <$> filter (fun t => is_spike t = true) l)
                 (st_spike_total_eth s))
      (st_in_values s
       ++ (eth <$> filter (fun t => to_wallet wl t = true) l))
      (st_out_values s
       ++ (eth <$> filter (fun t => from_wallet wl t = true) l))
      (st_tx_timestamps s ++ omap tx_ts l).
Proof.
  revert s. induction l as [|t l IH]; intros s.
  - destruct s. cbn. unfold len. cbn.
    rewrite !app_nil_r. f_equal; lia.
  - cbn [fold_left]. rewrite IH. unfold loop_step at 1 2 3 4 5 6.
    cbn [st_recent_tx_count st_spike_count st_spike_total_eth st_in_values
         st_out_values st_tx_timestamps].
    fold (is_spike t) (to_wallet wl t) (from_wallet wl t).
    rewrite !filter_cons. unfold len.
    f_equal.
    + cbn [omap list_omap]. destruct (tx_ts t) as [n|]; [|reflexivity].
      rewrite filter_cons. destruct (Z.leb_spec c n);
        destruct (decide _); try lia; cbn [length]; lia.
    + destruct (is_spike t); destruct (decide _); try congruence;
        cbn [length]; lia.
    + destruct (is_spike t); destruct (decide _); try congruence;
        reflexivity.
    + destruct (to_wallet wl t); destruct (decide _); try congruence;
        rewrite <- ?app_assoc; reflexivity.
    + destruct (from_wallet wl t); destruct (decide _); try congruence;
        rewrite <- ?app_assoc; reflexivity.
    + rewrite <- app_assoc. f_equal. cbn. destruct (tx_ts t); reflexivity.
Qed.


(** ** Transfers from the wallet to itself *)

Lemma lower_truthy (s : string) : str_truthy (lower s) = str_truthy s.
Proof. destruct s; reflexivity. Qed.

Lemma for_each_counterparties (w : option string) (l : list tx)
    (a a' : behavior.acc) :
  for_each (behavior.body w) l a = Ok a' ->
  behavior.acc_counterparties a ⊆ behavior.acc_counterparties a'.
Proof.
  intros H.
  apply (for_each_Ok _ (analyze_step w) converts) in H as [_ ->];
    [|intros s t s'; apply body_Ok].
  rewrite fold_analyze_step. cbn. set_solver.
Qed.

(** C10: when a subject address is given, an iteration of the loop on a
    record whose sender and receiver both equal it, case apart, adds the
    record's value to the outbound and to the inbound total, and puts the
    subject's own lowercased address among the counterparties, where it
    stays until the count is taken.  The iteration raises only if the
    amount does not convert; it leaves the modelled fragment if the
    amount is not a finite float, the timestamp is not ASCII text, or one
    of the two sums is not finite. *)
Theorem self_transfer_counts_both_ways
    (wallet_address : string) (a : behavior.acc) (t : tx) :
  str_truthy wallet_address = true ->
  lower (str_or (tx_from t) "") = lower wallet_address ->
  lower (str_or (tx_to t) "") = lower wallet_address ->
  match behavior.body (Some wallet_address) a t with
  | Ok a' =>
      exists v,
        behavior.wei_to_eth (str_or (tx_value t) "0") = Ok v
        /\ behavior.acc_total_in_eth a'
           = fadd (behavior.acc_total_in_eth a) v
        /\ behavior.acc_total_out_eth a'
           = fadd (behavior.acc_total_out_eth a) v
        /\ lower wallet_address ∈ behavior.acc_counterparties a'
        /\ (forall rest a'',
              for_each (behavior.body (Some wallet_address)) rest a' = Ok a'' ->
              lower wallet_address ∈ behavior.acc_counterparties a''
              /\ 1 <= behavior.unique_counterparties
                        (behavior.finish (t :: rest) a''))
  | Raise e =>
      e = AttributeError
      /\ behavior.wei_to_eth (str_or (tx_value t) "0") = Raise AttributeError
  | Unsupported =>
      behavior.wei_to_eth (str_or (tx_value t) "0") = Unsupported
      \/ exists v,
           behavior.wei_to_eth (str_or (tx_value t) "0") = Ok v
           /\ (ts_supported t = false
               \/ overflows (fadd (behavior.acc_total_out_eth a) v) = true
               \/ overflows (fadd (behavior.acc_total_in_eth a) v) = true)
  end.
Proof.
  intros Hw Hfrom Hto. rewrite body_cases. fold (tx_eth t).
  destruct (tx_eth t) as [v|e|] eqn:Ev;
    [|split; [reflexivity|by rewrite (wei_to_eth_raises _ _ Ev)]|by left].
  pose proof (tx_eth_Ok _ _ Ev) as Hv.
  assert (Hout : outbound (Some wallet_address) t = true).
  { unfold outbound, behavior.wallet_truthy, from_l. rewrite Hw, Hfrom.
    by apply bool_decide_eq_true_2. }
  assert (Hinb : inbound (Some wallet_address) t = true).
  { unfold inbound, behavior.wallet_truthy, to_l. rewrite Hw, Hto.
    by apply bool_decide_eq_true_2. }
  destruct (ts_supported t) eqn:Ets; cbn [andb];
    [|right; exists v; split; [reflexivity|by left]].
  unfold step_finite. rewrite Hout, Hinb, <- Hv. cbn [andb].
  destruct (overflows (fadd (behavior.acc_total_out_eth a) v)) eqn:Eo;
    cbn [andb negb];
    [right; exists v; split; [reflexivity|by right; left]|].
  destruct (overflows (fadd (behavior.acc_total_in_eth a) v)) eqn:Ei;
    cbn [andb negb];
    [right; exists v; split; [reflexivity|by right; right]|].
  assert (Hin : lower wallet_address
                ∈ behavior.acc_counterparties
                    (analyze_step (Some wallet_address) a t)).
  { unfold analyze_step, tx_counterparties, behavior.wallet_truthy,
      from_l, to_l.
    rewrite Hw, Hfrom, Hto. cbn [behavior.acc_counterparties].
    rewrite !bool_decide_eq_true_2 by reflexivity.
    unfold behavior.add_truthy. rewrite lower_truthy, Hw. set_solver. }
  exists v. split; [reflexivity|].
  unfold analyze_step at 1 2. rewrite Hout, Hinb, <- Hv.
  cbn [behavior.acc_total_in_eth behavior.acc_total_out_eth].
  split; [reflexivity|]. split; [reflexivity|]. split; [exact Hin|].
  intros rest a'' Hrest.
  pose proof (for_each_counterparties _ _ _ _ Hrest) as Hsub.
  assert (Hin' : lower wallet_address ∈ behavior.acc_counterparties a'')
    by set_solver.
  split; [exact Hin'|].
  unfold behavior.finish. cbn [behavior.unique_counterparties].
  assert (size (behavior.acc_counterparties a'') <> 0%nat); [|lia].
  intros H0. apply size_empty_inv in H0. set_solver.
Qed.

(** A transfer of 1 ETH from the wallet to itself, spelled in two cases. *)
Definition tx_self : tx :=
  mk_tx (Some "0xaa") (Some "0xAa") (Some "1000000000000000000") None.

Lemma self_transfer_counts_both_ways_witness :
  match behavior.body (Some "0xAA") behavior.acc0 tx_self with
  | Ok a' =>
      exists v,
        behavior.wei_to_eth (str_or (tx_value tx_self) "0") = Ok v
        /\ behavior.acc_total_in_eth a'
           = fadd (behavior.acc_total_in_eth behavior.acc0) v
        /\ behavior.acc_total_out_eth a'
           = fadd (behavior.acc_total_out_eth behavior.acc0) v
        /\ "0xaa" ∈ behavior.acc_counterparties a'
        /\ (forall rest a'',
              for_each (behavior.body (Some "0xAA")) rest a' = Ok a'' ->
              "0xaa" ∈ behavior.acc_counterparties a''
              /\ 1 <= behavior.unique_counterparties
                        (behavior.finish (tx_self :: rest) a''))
  | Raise e =>
      e = AttributeError
      /\ behavior.wei_to_eth (str_or (tx_value tx_self) "0")
         = Raise AttributeError
  | Unsupported =>
      behavior.wei_to_eth (str_or (tx_value tx_self) "0") = Unsupported
      \/ exists v,
           behavior.wei_to_eth (str_or (tx_value tx_self) "0") = Ok v
           /\ (ts_supported tx_self = false
               \/ overflows
                    (fadd (behavior.acc_total_out_eth behavior.acc0) v) = true
               \/ overflows
                    (fadd (behavior.acc_total_in_eth behavior.acc0) v) = true)
  end.
Proof.
  apply (self_transfer_counts_both_ways "0xAA" behavior.acc0 tx_self);
    reflexivity.
Defined.
(** ** Reordering the transfer list *)

Lemma fold_left_comm_perm {A B} (f : B -> A -> B) :
  (forall b x y, f (f b x) y = f (f b y) x) ->
  forall l l', l ≡ₚ l' -> forall b, fold_left f l b = fold_left f l' b.
Proof.
  intros Hf l l' Hp. induction Hp as [|x l l' _ IH|x y l|l l' l'' _ IH1 _ IH2];
    intros b; cbn.
  - reflexivity.
  - apply IH.
  - by rewrite Hf.
  - by rewrite IH1, IH2.
Qed.

Lemma py_min_perm (l l' : list Z) : l ≡ₚ l' -> py_min l = py_min l'.
Proof.
  assert (Hf : forall b x y : Z, Z.min (Z.min b x) y = Z.min (Z.min b y) x)
    by (intros; lia).
  intros Hp. induction Hp as [|x l l' Hp _|x y l|l l' l'' _ IH1 _ IH2]; cbn.
  - reflexivity.
  - f_equal. by apply fold_left_comm_perm.
  - f_equal. f_equal. lia.
  - by rewrite IH1, IH2.
Qed.

Lemma py_max_perm (l l' : list Z) : l ≡ₚ l' -> py_max l = py_max l'.
Proof.
  assert (Hf : forall b x y : Z, Z.max (Z.max b x) y = Z.max (Z.max b y) x)
    by (intros; lia).
  intros Hp. induction Hp as [|x l l' Hp _|x y l|l l' l'' _ IH1 _ IH2]; cbn.
  - reflexivity.
  - f_equal. by apply fold_left_comm_perm.
  - f_equal. f_equal. lia.
  - by rewrite IH1, IH2.
Qed.

Lemma count_hour_comm (m : gmap Z Z) (x y : Z) :
  count_hour (count_hour m x) y = count_hour (count_hour m y) x.
Proof.
  unfold count_hour.
  set (h := (x / 3600) mod 24). set (k := (y / 3600) mod 24).
  destruct (decide (h = k)) as [->|Hne]; [reflexivity|].
  rewrite !lookup_insert_ne by congruence.
  apply insert_insert_ne. congruence.
Qed.

Lemma hour_counts_perm (l l' : list Z) :
  l ≡ₚ l' -> fold_left count_hour l ∅ = fold_left count_hour l' ∅.
Proof.
  intros Hp. apply fold_left_comm_perm; [|exact Hp].
  intros. apply count_hour_comm.
Qed.

(** *** [sorted] *)

Lemma insert_sorted_perm {A} (key : A -> float) (x : A) (l : list A) :
  insert_sorted key x l ≡ₚ x :: l.
Proof.
  induction l as [|y l IH]; cbn; [reflexivity|].
  destruct (fltb _ _); [reflexivity|].
  rewrite IH. apply Permutation_swap.
Qed.

Lemma sorted_by_perm {A} (key : A -> float) (l : list A) :
  sorted_by key l ≡ₚ l.
Proof.
  unfold sorted_by.
  assert (H : forall acc, fold_left (fun acc x => insert_sorted key x acc) l acc
                          ≡ₚ l ++ acc).
  { induction l as [|x l IH]; intros acc; cbn; [reflexivity|].
    rewrite IH, insert_sorted_perm. by rewrite Permutation_middle. }
  rewrite H. by rewrite app_nil_r.
Qed.

Lemma insert_sorted_Sorted (x : float) (l : list float) :
  Sorted Qcle l -> Sorted Qcle (insert_sorted id x l).
Proof.
  induction l as [|y l IH]; intros Hs; cbn [insert_sorted].
  - repeat constructor.
  - change (id x) with x. change (id y) with y.
    destruct (fltb x y) eqn:E.
    + apply fltb_lt in E. constructor; [exact Hs|].
      constructor. unfold Qcle. lra.
    + apply fltb_ge in E. inversion Hs as [|? ? Hs' Hhd]; subst.
      constructor; [by apply IH|].
      destruct l as [|z l]; cbn [insert_sorted].
      * constructor. exact E.
      * change (id x) with x. change (id z) with z.
        destruct (fltb x z); constructor; [exact E|by inversion Hhd].
Qed.

Lemma sorted_Sorted (l : list float) : Sorted Qcle (sorted l).
Proof.
  unfold sorted, sorted_by.
  assert (H : forall acc, Sorted Qcle acc ->
            Sorted Qcle
              (fold_left (fun acc x => insert_sorted id x acc) l acc)).
  { induction l as [|x l IH]; intros acc Hacc; cbn; [exact Hacc|].
    apply IH, insert_sorted_Sorted, Hacc. }
  apply H. constructor.
Qed.

#[local] Instance Qcle_trans' : Transitive Qcle.
Proof. intros x y z. apply Qcle_trans. Qed.

#[local] Instance Qcle_antisym' : AntiSymm (=) Qcle.
Proof. intros x y. apply Qcle_antisym. Qed.

(** The sorted list depends on the elements only, not on their order. *)
Lemma sorted_perm (l l' : list float) : l ≡ₚ l' -> sorted l = sorted l'.
Proof.
  intros Hp. apply (Sorted_unique Qcle); try apply sorted_Sorted.
  unfold sorted. by rewrite !sorted_by_perm.
Qed.

Lemma sorted_guard (l : list float) :
  match l with
  | [] => []
  | _ => sorted l
  end = sorted l.
Proof. by destruct l. Qed.

(** *** The bag *)

Lemma converts_perm (l l' : list tx) :
  l ≡ₚ l' -> Forall converts l -> Forall converts l'.
Proof.
  intros Hp. rewrite !Forall_forall. intros H t Ht. apply H.
  by rewrite Hp.
Qed.

Lemma converts_no_malformed (l : list tx) :
  Forall converts l -> ~ Exists malformed l.
Proof.
  rewrite Forall_forall, Exists_exists. intros H (t & Ht & Hm).
  by apply (converts_not_malformed t (H t Ht)).
Qed.

(** The bag depends on the final loop state through order-independent
    aggregates and through the rounded spike total. *)
Lemma metrics_of_equiv (base : behavior.metrics) (s s' : loop_state) :
  st_recent_tx_count s = st_recent_tx_count s' ->
  st_spike_count s = st_spike_count s' ->
  round (st_spike_total_eth s) 4 = round (st_spike_total_eth s') 4 ->
  st_in_values s ≡ₚ st_in_values s' ->
  st_out_values s ≡ₚ st_out_values s' ->
  st_tx_timestamps s ≡ₚ st_tx_timestamps s' ->
  metrics_of base s = metrics_of base s'.
Proof.
  destruct s as [r sc st iv ov ts], s' as [r' sc' st' iv' ov' ts'].
  cbn [st_recent_tx_count st_spike_count st_spike_total_eth st_in_values
       st_out_values st_tx_timestamps].
  intros <- <- Hst Hiv Hov Hts. unfold metrics_of.
  cbn [st_recent_tx_count st_spike_count st_spike_total_eth st_in_values
       st_out_values st_tx_timestamps].
  cbv zeta. rewrite !sorted_guard.
  rewrite (sorted_perm _ _ Hov), (hour_counts_perm _ _ Hts), Hst.
  unfold len. rewrite (Permutation_length Hiv), (Permutation_length Hov).
  reflexivity.
Qed.

(** The base aggregates of two orders of a list agree as soon as their
    two totals do. *)
Lemma analyze_pure_perm (l l' : list tx) (w : option string) :
  l ≡ₚ l' ->
  behavior.total_in_eth (analyze_pure l w)
  = behavior.total_in_eth (analyze_pure l' w) ->
  behavior.total_out_eth (analyze_pure l w)
  = behavior.total_out_eth (analyze_pure l' w) ->
  analyze_pure l w = analyze_pure l' w.
Proof.
  intros Hp. unfold analyze_pure, behavior.finish.
  rewrite !fold_analyze_step.
  cbn [behavior.total_in_eth behavior.total_out_eth
       behavior.acc_total_in_eth behavior.acc_total_out_eth
       behavior.acc_counterparties behavior.acc_large_transfers
       behavior.acc_timestamps behavior.acc0].
  intros -> ->. unfold len.
  assert (Hts : omap tx_ts l ≡ₚ omap tx_ts l') by (by rewrite Hp).
  f_equal.
  - by rewrite Hp.
  - do 2 f_equal. f_equal. by rewrite Hp.
  - apply py_min_perm. cbn. exact Hts.
  - apply py_max_perm. cbn. exact Hts.
  - by rewrite Hp.
Qed.

(** The bags of two orders of a list agree as soon as their three totals
    do: everything else in them is an aggregate that ignores the order. *)
Lemma metrics_pure_perm (l l' : list tx) (w : string) :
  l ≡ₚ l' ->
  total_in_eth (metrics_pure l w) = total_in_eth (metrics_pure l' w) ->
  total_out_eth (metrics_pure l w) = total_out_eth (metrics_pure l' w) ->
  spike_total_eth (metrics_pure l w) = spike_total_eth (metrics_pure l' w) ->
  metrics_pure l w = metrics_pure l' w.
Proof.
  intros Hp Hin Hout Hsp. unfold metrics_pure in *. cbv zeta in *.
  assert (Hb : analyze_pure l (Some w) = analyze_pure l' (Some w))
    by (apply analyze_pure_perm; assumption).
  rewrite <- Hb in *. set (base := analyze_pure l (Some w)) in *.
  rewrite !fold_loop_step in *.
  apply metrics_of_equiv;
    cbn [st_recent_tx_count st_spike_count st_spike_total_eth st_in_values
         st_out_values st_tx_timestamps loop_state0].
  - unfold len. by rewrite Hp.
  - unfold len. by rewrite Hp.
  - exact Hsp.
  - by rewrite Hp.
  - by rewrite Hp.
  - by rewrite Hp.
Qed.


(** The first and the last timestamp ignore the order, and so does the
    span in days. *)
Lemma span_seconds_perm (l l' : list tx) (w : option string) :
  l ≡ₚ l' ->
  span_seconds (analyze_pure l w) = span_seconds (analyze_pure l' w).
Proof.
  intros Hp. unfold span_seconds, analyze_pure, behavior.finish.
  rewrite !fold_analyze_step.
  cbn [behavior.first_seen behavior.last_seen behavior.acc_timestamps
       behavior.acc0 app].
  assert (Hts : omap tx_ts l ≡ₚ omap tx_ts l') by (by rewrite Hp).
  by rewrite (py_min_perm _ _ Hts), (py_max_perm _ _ Hts).
Qed.

Lemma span_overflows_perm (l l' : list tx) (w : string) :
  l ≡ₚ l' -> span_overflows l w -> span_overflows l' w.
Proof.
  intros Hp. unfold span_overflows.
  by rewrite (span_seconds_perm _ _ _ Hp).
Qed.

(** The exception raised ignores the order. *)
Lemma raises_on_perm (l l' : list tx) (w : string) (e e' : exn) :
  l ≡ₚ l' -> raises_on l w e -> raises_on l' w e' -> e = e'.
Proof.
  intros Hp [[-> Hm]|(-> & Hc & _)] [[-> Hm']|(-> & Hc' & _)];
    try reflexivity; exfalso.
  - apply (converts_no_malformed l); [|exact Hm].
    symmetry in Hp. by apply (converts_perm _ _ Hp).
  - apply (converts_no_malformed l'); [|exact Hm'].
    by apply (converts_perm _ _ Hp).
Qed.

(** *** The classification *)

(** Three inbound transfers of 0.1, 20 and 29.89995 ETH, in two orders. *)
Definition tx_0_1 : tx :=
  mk_tx (Some "0xb1") (Some "0xaa") (Some "100000000000000000") None.
Definition tx_20 : tx :=
  mk_tx (Some "0xb2") (Some "0xaa") (Some "20000000000000000000") None.
Definition tx_29_89995 : tx :=
  mk_tx (Some "0xb3") (Some "0xaa") (Some "29899950000000000000") None.

(** A concrete call that returns does so with the result built from the
    bag. *)
Lemma classify_wallet_returns transactions wallet_address include_metrics :
  transactions <> [] ->
  (exists c,
      classify_wallet transactions wallet_address include_metrics = Ok c) ->
  classify_wallet transactions wallet_address include_metrics
  = Ok (classification_of wallet_address include_metrics
          (metrics_pure transactions wallet_address)).
Proof.
  intros Hne [c Hc].
  by destruct (classify_wallet_Ok _ _ _ _ Hne Hc) as (_ & _ & <-).
Qed.

(** C7, as stated, fails: float addition depends on the order.  Added as
    0.1 + 20 + 29.89995 the inbound total rounds to 49.9999 and the verdict
    is NEUTRAL; added as 20 + 29.89995 + 0.1 it rounds to 50.0 and the
    verdict is SMART_MONEY_ACCUMULATION. *)
Lemma reordering_changes_verdict :
  [tx_0_1; tx_20; tx_29_89995] ≡ₚ [tx_20; tx_29_89995; tx_0_1]
  /\ (exists c c',
        classify_wallet [tx_0_1; tx_20; tx_29_89995] "0xaa" true = Ok c
        /\ classify_wallet [tx_20; tx_29_89995; tx_0_1] "0xaa" true = Ok c'
        /\ verdict c = VERDICT_NEUTRAL
        /\ verdict c' = VERDICT_SMART_MONEY_ACCUMULATION
        /\ confidence c = fl 0.45
        /\ confidence c' = fl 0.72)
  /\ classify_wallet [tx_0_1; tx_20; tx_29_89995] "0xaa" true
     <> classify_wallet [tx_20; tx_29_89995; tx_0_1] "0xaa" true.
Proof.
  assert (E : classify_wallet [tx_0_1; tx_20; tx_29_89995] "0xaa" true
              = Ok (classification_of "0xaa" true
                      (metrics_pure [tx_0_1; tx_20; tx_29_89995] "0xaa"))).
  { apply classify_wallet_returns; [discriminate|].
    vm_compute. eexists. reflexivity. }
  assert (E' : classify_wallet [tx_20; tx_29_89995; tx_0_1] "0xaa" true
               = Ok (classification_of "0xaa" true
                       (metrics_pure [tx_20; tx_29_89995; tx_0_1] "0xaa"))).
  { apply classify_wallet_returns; [discriminate|].
    vm_compute. eexists. reflexivity. }
  split; [|split].
  - change [tx_20; tx_29_89995; tx_0_1] with ([tx_20; tx_29_89995] ++ [tx_0_1]).
    apply Permutation_cons_append.
  - rewrite E, E'.
    do 2 eexists. split; [reflexivity|]. split; [reflexivity|].
    split; [vm_compute; reflexivity|]. split; [vm_compute; reflexivity|].
    split; float_eq.
  - rewrite E, E'. intros H.
    apply (f_equal (fun r => match r with
                             | Ok c => Some (verdict c)
                             | _ => None
                             end)) in H.
    vm_compute in H. discriminate.
Qed.

(** C7, amended: a reordering of the transfer list leaves the outcome of
    [classify_wallet] unchanged, be it a result or an exception, whenever
    the three totals that are added up in list order (total in, total
    out, spike total, as reported in the bag) come out the same for the
    two orders, and neither order leaves the modelled fragment (every
    float stays finite); nothing else in the result depends on the
    order. *)
Theorem classify_wallet_reordering
    (transactions transactions' : list tx) (wallet_address : string)
    (include_metrics : bool) :
  transactions ≡ₚ transactions' ->
  classify_wallet transactions wallet_address include_metrics
  <> Unsupported ->
  classify_wallet transactions' wallet_address include_metrics
  <> Unsupported ->
  (forall m m',
     _compute_intelligence_metrics transactions wallet_address = Ok m ->
     _compute_intelligence_metrics transactions' wallet_address = Ok m' ->
     total_in_eth m = total_in_eth m'
     /\ total_out_eth m = total_out_eth m'
     /\ spike_total_eth m = spike_total_eth m') ->
  classify_wallet transactions wallet_address include_metrics
  = classify_wallet transactions' wallet_address include_metrics.
Proof.
  intros Hp Hs Hs' Hsums.
  destruct transactions as [|t l].
  { apply Permutation_nil_l in Hp as <-. reflexivity. }
  assert (Hne : t :: l <> []) by discriminate.
  assert (Hne' : transactions' <> []).
  { intros ->. by apply Permutation_nil_r in Hp. }
  rewrite (classify_wallet_nonempty _ _ _ Hne) in Hs |- *.
  rewrite (classify_wallet_nonempty _ _ _ Hne') in Hs' |- *.
  destruct (_compute_intelligence_metrics (t :: l) wallet_address)
    as [m|e|] eqn:E;
    destruct (_compute_intelligence_metrics transactions' wallet_address)
    as [m'|e'|] eqn:E'; try contradiction.
  - destruct (Hsums _ _ eq_refl eq_refl) as (Hin & Hout & Hsp).
    apply compute_metrics_Ok in E as [_ ->].
    apply compute_metrics_Ok in E' as [_ ->].
    by rewrite (metrics_pure_perm _ _ _ Hp Hin Hout Hsp).
  - exfalso. pose proof (compute_metrics_Ok_span _ _ _ E) as Hspan.
    apply compute_metrics_Ok in E as [Hc _].
    apply compute_metrics_Raise in E' as [[_ Hm]|(_ & _ & Ho)].
    + by apply (converts_no_malformed _ (converts_perm _ _ Hp Hc)).
    + symmetry in Hp. by apply Hspan, (span_overflows_perm _ _ _ Hp).
  - exfalso. pose proof (compute_metrics_Ok_span _ _ _ E') as Hspan.
    apply compute_metrics_Ok in E' as [Hc _]. symmetry in Hp.
    apply compute_metrics_Raise in E as [[_ Hm]|(_ & _ & Ho)].
    + by apply (converts_no_malformed _ (converts_perm _ _ Hp Hc)).
    + symmetry in Hp. by apply Hspan, (span_overflows_perm _ _ _ Hp).
  - f_equal. apply compute_metrics_Raise in E, E'.
    by apply (raises_on_perm _ _ _ _ _ Hp E E').
Qed.

Lemma classify_wallet_reordering_witness :
  [tx_20; tx_one_inbound] ≡ₚ [tx_one_inbound; tx_20]
  /\ classify_wallet [tx_20; tx_one_inbound] "0xaa" true
     = classify_wallet [tx_one_inbound; tx_20] "0xaa" true.
Proof.
  assert (Hp : [tx_20; tx_one_inbound] ≡ₚ [tx_one_inbound; tx_20])
    by apply Permutation_swap.
  split; [exact Hp|].
  apply (classify_wallet_reordering _ _ "0xaa" true Hp).
  - rewrite classify_wallet_returns; [discriminate|discriminate|].
    vm_compute. eexists. reflexivity.
  - rewrite classify_wallet_returns; [discriminate|discriminate|].
    vm_compute. eexists. reflexivity.
  - intros m m' H H'. vm_compute in H, H'.
    injection H as <-. injection H' as <-.
    cbn [total_in_eth total_out_eth spike_total_eth].
    split; [float_eq|]. split; float_eq.
Defined.
